(** * Verification of the ncatbot event-dispatch and plugin-lifecycle kernel

    A shallow embedding of the Python sources under [ncatbot/]:
    - [EventBus]       ncatbot/core/client/event_bus.py
    - [EventParser]    ncatbot/core/event/parser.py and events.py
    - [ServiceManager] ncatbot/core/service/manager.py
    - [Importer]       ncatbot/plugin_system/loader/importer.py
    - [FileWatcher]    ncatbot/core/service/builtin/file_watcher/service.py
    - [PluginConfig]   ncatbot/core/service/builtin/plugin_config_service.py

    Python dicts are modelled as stdpp [gmap] where only lookup matters and
    as association lists where the insertion order is observable. *)

From Stdlib Require Import ZArith Lia Sorting.Permutation Sorting.Sorted.
From Stdlib Require Import Strings.String Strings.Ascii.
From Stdlib Require DecimalZ.
From stdpp Require Import base gmap sets list strings.

Open Scope Z_scope.

(** stdpp blocks [simpl] on string append; the proofs below compute with it. *)
#[local] Arguments String.append : simpl nomatch.

(* ------------------------------------------------------------------ *)
(** ** Python string helpers *)
(* ------------------------------------------------------------------ *)

Module PyStr.

(** [s.split(".")]: always returns at least one (possibly empty) piece. *)
Fixpoint split_dot (s : string) : list string :=
  match s with
  | EmptyString => [EmptyString]
  | String c s' =>
      if Ascii.eqb c "."%char then EmptyString :: split_dot s'
      else match split_dot s' with
           | [] => [String c EmptyString]
           | w :: ws => String c w :: ws
           end
  end.

(** [".".join(parts)]. *)
Fixpoint join_dot (l : list string) : string :=
  match l with
  | [] => EmptyString
  | [w] => w
  | w :: ws => (w ++ "." ++ join_dot ws)%string
  end.

(** [s.startswith(p)]. *)
Definition startswith (p s : string) : bool := String.prefix p s.

End PyStr.

(* ------------------------------------------------------------------ *)
(** ** Event bus (event_bus.py) *)
(* ------------------------------------------------------------------ *)

Module EventBus.
Import PyStr.

(** A handler callable: only its [__name__] and its identity matter to
    the bus. *)
Record handler := mkHandler { h_name : string; h_code : nat }.

(** The subscription tuple [(pattern, priority, handler, hid, timeout)];
    [e_pattern] is [None] for exact subscriptions and the regex source
    for ["re:"] subscriptions. *)
Record entry := mkEntry {
  e_pattern : option string;
  e_priority : Z;
  e_handler : handler;
  e_hid : nat;
  e_timeout : Z
}.

Record bus := mkBus {
  exact : gmap string (list entry);
  regex : list entry;
  default_timeout : Z;
  handler_meta : gmap nat string   (* hid -> plugin meta_data["name"] *)
}.

(** ** The sort key [lambda t: (-t[1], t[2].__name__)] and Python's
    stable [list.sort] *)

(** Tuple comparison [(-p1, n1) < (-p2, n2)]. *)
Definition key_ltb (a b : entry) : bool :=
  (e_priority b <? e_priority a)
  || ((e_priority a =? e_priority b) && String.ltb (h_name (e_handler a)) (h_name (e_handler b))).

(** [list.sort(key=...)] is stable, so its result is the unique stable
    sort of the list by the key; insertion sort computes it. *)
Fixpoint ins (x : entry) (l : list entry) : list entry :=
  match l with
  | [] => [x]
  | y :: ys => if key_ltb y x then y :: ins x ys else x :: y :: ys
  end.

Fixpoint sort_by_key (l : list entry) : list entry :=
  match l with
  | [] => []
  | x :: xs => ins x (sort_by_key xs)
  end.

(** Exceptions a handler can raise, by the class the [except] clauses of
    [publish] test: [asyncio.TimeoutError], any other [Exception], or a
    [BaseException] that is not an [Exception] ([CancelledError], ...). *)
Inductive exc_class := ExcAsyncioTimeout | ExcOther | ExcBase.
Record exc := mkExc { exc_cls : exc_class; exc_id : nat }.

(** An entry of [event._exceptions]: a handler's own exception, or a
    [HandlerTimeoutError(meta_data, handler, time)]. *)
Inductive recorded :=
  | RecExc (x : exc)
  | RecTimeout (meta_name : string) (handler_name : string) (time : Z).

(** The [NcatBotEvent] fields the bus reads and writes. *)
Record event := mkEvent {
  ev_type : string;
  ev_results : list nat;
  ev_exceptions : list recorded;
  ev_stopped : bool
}.

(** What [await asyncio.wait_for(self._run_handler(handler, event), timeout)]
    does: the handler returns a value, raises, or overruns its timeout. *)
Inductive outcome := Returned (v : nat) | Threw (x : exc) | Exceeded.

Section Bus.

(** [re.compile(p)] succeeds, and [pattern.match(s)] is truthy: the
    regular-expression engine of the [re] module. *)
Variable re_compiles : string -> bool.
Variable re_match : string -> string -> bool.

Definition bucket (b : bus) (t : string) : list entry :=
  default [] (exact b !! t).

(** [EventBus.subscribe]; [hid] is the fresh [uuid.uuid4()]; [None] is the
    [ValueError] raised by [_compile_regex] for an invalid pattern. Python
    has already written [self._handler_meta[hid]] when it raises; the
    state after a failed call is not carried by this model, so the
    results below only speak about calls that return. *)
Definition subscribe (b : bus) (event_type : string) (h : handler)
    (priority : Z) (timeout : option Z) (plugin : option string) (hid : nat)
    : option bus :=
  let timeout_val := default (default_timeout b) timeout in
  let meta := match plugin with
              | Some name => <[hid := name]> (handler_meta b)
              | None => handler_meta b
              end in
  if startswith "re:" event_type then
    let pat := substring 3 (String.length event_type - 3)%nat event_type in
    if re_compiles pat then
      Some (mkBus (exact b)
                  (sort_by_key (regex b ++ [mkEntry (Some pat) priority h hid timeout_val]))
                  (default_timeout b) meta)
    else None
  else
    let bk := bucket b event_type ++ [mkEntry None priority h hid timeout_val] in
    Some (mkBus (<[event_type := sort_by_key bk]> (exact b)) (regex b)
                (default_timeout b) meta).

(** The strict dotted prefixes in the order of
    [for i in range(len(parts) - 1, 0, -1)]. *)
Definition dotted_prefixes (t : string) : list string :=
  let parts := split_dot t in
  map (fun i => join_dot (firstn i parts)) (rev (seq 1 (Nat.pred (List.length parts)))).

Definition regex_matches (t : string) (e : entry) : bool :=
  match e_pattern e with
  | Some p => re_match p t
  | None => false
  end.

(** [exact_handlers + prefix_handlers + regex_handlers], before sorting. *)
Definition merged_handlers (b : bus) (t : string) : list entry :=
  bucket b t
  ++ flat_map (bucket b) (dotted_prefixes t)
  ++ List.filter (regex_matches t) (regex b).

(** [EventBus._collect_handlers]. *)
Definition collect_handlers (b : bus) (t : string) : list entry :=
  sort_by_key (merged_handlers b t).

(** Running a handler on the event: its outcome, and whether it set
    [event._propagation_stopped] while running. *)
Variable run : entry -> event -> outcome * bool.

(** The [for] loop of [EventBus.publish]. Returns the handlers invoked,
    with their outcomes, and either the final event or the exception that
    escapes [publish]. *)
Fixpoint dispatch (meta : gmap nat string) (hs : list entry) (ev : event)
    : list (entry * outcome) * (event + exc) :=
  match hs with
  | [] => ([], inl ev)
  | e :: rest =>
      if ev_stopped ev then ([], inl ev) else
      let '(o, stop) := run e ev in
      let ev1 := mkEvent (ev_type ev) (ev_results ev) (ev_exceptions ev)
                         (ev_stopped ev || stop) in
      let timeout_rec :=
        RecTimeout (default "Unknown" (meta !! e_hid e))
                   (h_name (e_handler e)) (e_timeout e) in
      let add_exc r := mkEvent (ev_type ev1) (ev_results ev1)
                               (ev_exceptions ev1 ++ [r]) (ev_stopped ev1) in
      let continue_with ev2 :=
        let '(calls, res) := dispatch meta rest ev2 in ((e, o) :: calls, res) in
      match o with
      | Returned v =>
          continue_with (mkEvent (ev_type ev1) (ev_results ev1 ++ [v])
                                 (ev_exceptions ev1) (ev_stopped ev1))
      | Exceeded => continue_with (add_exc timeout_rec)
      | Threw x =>
          match exc_cls x with
          | ExcAsyncioTimeout => continue_with (add_exc timeout_rec)
          | ExcOther => continue_with (add_exc (RecExc x))
          | ExcBase => ([(e, o)], inr x)
          end
      end
  end.

(** [EventBus.publish]: returns [event._results.copy()]. *)
Definition publish (b : bus) (ev : event)
    : list (entry * outcome) * ((list nat * event) + exc) :=
  let '(calls, res) := dispatch (handler_meta b) (collect_handlers b (ev_type ev)) ev in
  (calls, match res with
          | inl ev' => inl (ev_results ev', ev')
          | inr x => inr x
          end).

End Bus.

Definition other_hid (handler_id : nat) (h : entry) : bool := negb (e_hid h =? handler_id)%nat.

Definition mentions_hid (handler_id : nat) (l : list entry) : bool :=
  existsb (fun h => (e_hid h =? handler_id)%nat) l.

(** One bucket of the [for typ in list(self._exact.keys())] loop: the
    filtered list, or [None] when it is empty and the key is deleted. *)
Definition prune_bucket (handler_id : nat) (l : list entry) : option (list entry) :=
  match List.filter (other_hid handler_id) l with
  | [] => None
  | l' => Some l'
  end.

(** [EventBus.unsubscribe]: the new bus and the returned [removed]. *)
Definition unsubscribe (b : bus) (handler_id : nat) : bus * bool :=
  let meta := delete handler_id (handler_meta b) in
  let removed_exact := existsb (fun kv => mentions_hid handler_id kv.2) (map_to_list (exact b)) in
  let exact' := omap (prune_bucket handler_id) (exact b) in
  let regex' := List.filter (other_hid handler_id) (regex b) in
  (mkBus exact' regex' (default_timeout b) meta,
   removed_exact || mentions_hid handler_id (regex b)).

End EventBus.

(* ------------------------------------------------------------------ *)
(** ** Event parser (parser.py, events.py) *)
(* ------------------------------------------------------------------ *)

Module EventParser.

(** JSON values of a gateway payload. [JComp] is a nested object or array,
    kept opaque: whether it is non-empty (its truth value) and its [str]. *)
Inductive jval :=
  | JInt (z : Z)
  | JStr (s : string)
  | JBool (b : bool)
  | JNull
  | JComp (nonempty : bool) (repr : string).

(** The payload dict, as decoded by [json.loads]. *)
Abbreviation payload := (gmap string jval).

(** Python truthiness. *)
Definition truthy (v : jval) : bool :=
  match v with
  | JInt z => negb (z =? 0)
  | JStr s => negb (String.eqb s "")
  | JBool b => b
  | JNull => false
  | JComp ne _ => ne
  end.

Fixpoint uint_to_string (d : Decimal.uint) : string :=
  match d with
  | Decimal.Nil => ""
  | Decimal.D0 d => String "0" (uint_to_string d)
  | Decimal.D1 d => String "1" (uint_to_string d)
  | Decimal.D2 d => String "2" (uint_to_string d)
  | Decimal.D3 d => String "3" (uint_to_string d)
  | Decimal.D4 d => String "4" (uint_to_string d)
  | Decimal.D5 d => String "5" (uint_to_string d)
  | Decimal.D6 d => String "6" (uint_to_string d)
  | Decimal.D7 d => String "7" (uint_to_string d)
  | Decimal.D8 d => String "8" (uint_to_string d)
  | Decimal.D9 d => String "9" (uint_to_string d)
  end.

(** [str(n)] for a Python [int]. *)
Definition z_to_str (z : Z) : string :=
  match Z.to_int z with
  | Decimal.Pos d => uint_to_string d
  | Decimal.Neg d => String "-" (uint_to_string d)
  end.

(** [str(v)]. *)
Definition py_str (v : jval) : string :=
  match v with
  | JInt z => z_to_str z
  | JStr s => s
  | JBool true => "True"
  | JBool false => "False"
  | JNull => "None"
  | JComp _ r => r
  end.

(** [str(data.get(k) or "")]. *)
Definition str_or_empty (v : option jval) : string :=
  match v with
  | Some j => if truthy j then py_str j else ""
  | None => ""
  end.

(** [EventParser._get_secondary_key]; the [PostType] and [NoticeType]
    members are [str] enums, so they compare equal to their values. *)
Definition get_secondary_key (data : payload) : string :=
  match data !! "post_type" with
  | Some (JStr "message") => str_or_empty (data !! "message_type")
  | Some (JStr "request") => str_or_empty (data !! "request_type")
  | Some (JStr "meta_event") => str_or_empty (data !! "meta_event_type")
  | Some (JStr "notice") =>
      match data !! "notice_type" with
      | Some (JStr "notify") => str_or_empty (data !! "sub_type")
      | n_type => str_or_empty n_type
      end
  | _ => "default"
  end.

Inductive event_cls :=
  | PrivateMessageEvent | GroupMessageEvent
  | FriendRequestEvent | GroupRequestEvent
  | LifecycleMetaEvent | HeartbeatMetaEvent
  | GroupUploadNoticeEvent | GroupAdminNoticeEvent | GroupDecreaseNoticeEvent
  | GroupIncreaseNoticeEvent | GroupBanNoticeEvent | FriendAddNoticeEvent
  | GroupRecallNoticeEvent | FriendRecallNoticeEvent
  | PokeNotifyEvent | LuckyKingNotifyEvent | HonorNotifyEvent.

Definition cls_name (c : event_cls) : string :=
  match c with
  | PrivateMessageEvent => "PrivateMessageEvent"
  | GroupMessageEvent => "GroupMessageEvent"
  | FriendRequestEvent => "FriendRequestEvent"
  | GroupRequestEvent => "GroupRequestEvent"
  | LifecycleMetaEvent => "LifecycleMetaEvent"
  | HeartbeatMetaEvent => "HeartbeatMetaEvent"
  | GroupUploadNoticeEvent => "GroupUploadNoticeEvent"
  | GroupAdminNoticeEvent => "GroupAdminNoticeEvent"
  | GroupDecreaseNoticeEvent => "GroupDecreaseNoticeEvent"
  | GroupIncreaseNoticeEvent => "GroupIncreaseNoticeEvent"
  | GroupBanNoticeEvent => "GroupBanNoticeEvent"
  | FriendAddNoticeEvent => "FriendAddNoticeEvent"
  | GroupRecallNoticeEvent => "GroupRecallNoticeEvent"
  | FriendRecallNoticeEvent => "FriendRecallNoticeEvent"
  | PokeNotifyEvent => "PokeNotifyEvent"
  | LuckyKingNotifyEvent => "LuckyKingNotifyEvent"
  | HonorNotifyEvent => "HonorNotifyEvent"
  end.

(** [EventParser._registry]; [register] overwrites, so the most recent
    registration of a key is found first. *)
Definition registry := list ((string * string) * event_cls).

Definition register (post_type secondary_key : string) (c : event_cls)
    (r : registry) : registry :=
  ((post_type, secondary_key), c) :: r.

Fixpoint registry_get (r : registry) (k : string * string) : option event_cls :=
  match r with
  | [] => None
  | (k', c) :: r' =>
      if String.eqb k.1 k'.1 && String.eqb k.2 k'.2 then Some c else registry_get r' k
  end.

(** [register_builtin_events()], run at import time. *)
Definition builtin_registry : registry :=
  fold_left (fun r '(p, s, c) => register p s c r)
    [("message", "private", PrivateMessageEvent);
     ("message", "group", GroupMessageEvent);
     ("request", "friend", FriendRequestEvent);
     ("request", "group", GroupRequestEvent);
     ("meta_event", "lifecycle", LifecycleMetaEvent);
     ("meta_event", "heartbeat", HeartbeatMetaEvent);
     ("notice", "group_upload", GroupUploadNoticeEvent);
     ("notice", "group_admin", GroupAdminNoticeEvent);
     ("notice", "group_decrease", GroupDecreaseNoticeEvent);
     ("notice", "group_increase", GroupIncreaseNoticeEvent);
     ("notice", "group_ban", GroupBanNoticeEvent);
     ("notice", "friend_add", FriendAddNoticeEvent);
     ("notice", "group_recall", GroupRecallNoticeEvent);
     ("notice", "friend_recall", FriendRecallNoticeEvent);
     ("notice", "poke", PokeNotifyEvent);
     ("notice", "lucky_king", LuckyKingNotifyEvent);
     ("notice", "honor", HonorNotifyEvent)] [].

(** [_registry.get((post_type, sec_key))]: the keys are strings. *)
Definition lookup_variant (post_type : jval) (sec_key : string) : option event_cls :=
  match post_type with
  | JStr p => registry_get builtin_registry (p, sec_key)
  | _ => None
  end.


(** ** Pydantic validation of the event models *)

(** Declared field types. *)
Inductive kind :=
  | KInt                      (* int *)
  | KStr                      (* str *)
  | KOptStr                   (* Optional[str] *)
  | KEnum (vals : list string) (* a str Enum or a Literal *)
  | KAny                      (* Any *)
  | KModel                    (* a nested model *)
  | KOptModel.                (* Optional[nested model] *)

(** [field_validator(..., mode="before")] attached to a field:
    [str(v)], or [str(v) if v else None] ([NoticeEvent._ids]). *)
Inductive validator := VNone | VStr | VStrIfTruthy.

(** Validated field values. *)
Inductive out := OInt (z : Z) | OStr (s : string) | ONone | OVal (v : jval).

(** A declared field; [f_default = None] marks a required field. *)
Record field := mkField {
  f_name : string;
  f_kind : kind;
  f_default : option out;
  f_validator : validator
}.

(** Lax [int] validation: ints, bools and numeric strings. *)
Definition digit_val (c : ascii) : option Z :=
  let n := Z.of_nat (nat_of_ascii c) - 48 in
  if (0 <=? n) && (n <=? 9) then Some n else None.

Fixpoint digits_val (acc : Z) (s : string) : option Z :=
  match s with
  | EmptyString => Some acc
  | String c s' =>
      match digit_val c with
      | Some d => digits_val (acc * 10 + d) s'
      | None => None
      end
  end.

Definition parse_int_str (s : string) : option Z :=
  match s with
  | EmptyString => None
  | String "-" EmptyString => None
  | String "-" s' => option_map Z.opp (digits_val 0 s')
  | _ => digits_val 0 s
  end.

Definition check_kind (k : kind) (v : jval) : option out :=
  match k, v with
  | KInt, JInt z => Some (OInt z)
  | KInt, JBool b => Some (OInt (if b then 1 else 0))
  | KInt, JStr s => option_map OInt (parse_int_str s)
  | KStr, JStr s => Some (OStr s)
  | KOptStr, JStr s => Some (OStr s)
  | KOptStr, JNull => Some ONone
  | KEnum vals, JStr s => if existsb (String.eqb s) vals then Some (OStr s) else None
  | KAny, _ => Some (OVal v)
  | KModel, JComp _ _ => Some (OVal v)
  | KOptModel, JComp _ _ => Some (OVal v)
  | KOptModel, JNull => Some ONone
  | _, _ => None
  end.

(** A string produced by a validator must still satisfy the declared type. *)
Definition check_out (k : kind) (o : out) : option out :=
  match k, o with
  | (KStr | KOptStr | KAny), OStr s => Some (OStr s)
  | (KOptStr | KAny | KOptModel), ONone => Some ONone
  | _, _ => None
  end.

(** Validation of one field: a missing field takes its default without
    running the validator; [None] is a [ValidationError]. *)
Definition validate_field (f : field) (data : payload) : option out :=
  match data !! f_name f with
  | None => f_default f
  | Some v =>
      match f_validator f with
      | VNone => check_kind (f_kind f) v
      | VStr => check_out (f_kind f) (OStr (py_str v))
      | VStrIfTruthy =>
          check_out (f_kind f) (if truthy v then OStr (py_str v) else ONone)
      end
  end.

Definition req (n : string) (k : kind) (v : validator) := mkField n k None v.
Definition opt (n : string) (k : kind) (d : out) (v : validator) := mkField n k (Some d) v.

Definition post_types := ["message"; "notice"; "request"; "meta_event"].
Definition notice_types :=
  ["group_upload"; "group_admin"; "group_decrease"; "group_increase"; "group_ban";
   "friend_add"; "group_recall"; "friend_recall"; "notify"].

(** [BaseEvent]: [time], [self_id] (with [force_str]) and [post_type]
    with the default of the given subclass. *)
Definition base_fields (pt : string) : list field :=
  [req "time" KInt VNone; req "self_id" KStr VStr;
   opt "post_type" (KEnum post_types) (OStr pt) VNone].

Definition message_fields (mt sub : string) : list field :=
  base_fields "message" ++
  [opt "message_type" (KEnum ["private"; "group"]) (OStr mt) VNone;
   opt "sub_type" KStr (OStr sub) VNone;
   req "message_id" KStr VStr; req "user_id" KStr VStr;
   req "message" KAny VNone; req "raw_message" KStr VNone;
   opt "font" KInt (OInt 0) VNone].

(** [NoticeEvent]: [group_id] and [user_id] under [NoticeEvent._ids];
    a subclass that defines its own [_ids] ([GroupRecallNoticeEvent])
    replaces that validator, as Pydantic binds validators by name. *)
Definition notice_fields (nt : string) (ids : validator) : list field :=
  base_fields "notice" ++
  [opt "notice_type" (KEnum notice_types) (OStr nt) VNone;
   opt "group_id" KOptStr ONone ids; opt "user_id" KOptStr ONone ids].

Definition request_fields (rt : string) : list field :=
  base_fields "request" ++
  [opt "request_type" (KEnum ["friend"; "group"]) (OStr rt) VNone;
   req "user_id" KStr VStr; opt "comment" KOptStr ONone VNone;
   req "flag" KStr VNone].

Definition meta_fields (mt : string) : list field :=
  base_fields "meta_event" ++
  [opt "meta_event_type" (KEnum ["lifecycle"; "heartbeat"]) (OStr mt) VNone].

Definition fields_of (c : event_cls) : list field :=
  match c with
  | PrivateMessageEvent => message_fields "private" "friend" ++ [req "sender" KModel VNone]
  | GroupMessageEvent =>
      message_fields "group" "normal" ++
      [req "group_id" KStr VStr; opt "anonymous" KOptModel ONone VNone;
       req "sender" KModel VNone]
  | FriendRequestEvent => request_fields "friend"
  | GroupRequestEvent =>
      request_fields "group" ++ [opt "sub_type" KStr (OStr "add") VNone; req "group_id" KStr VStr]
  | LifecycleMetaEvent => meta_fields "lifecycle" ++ [opt "sub_type" KStr (OStr "enable") VNone]
  | HeartbeatMetaEvent => meta_fields "heartbeat" ++ [req "status" KModel VNone; req "interval" KInt VNone]
  | GroupUploadNoticeEvent => notice_fields "group_upload" VStrIfTruthy ++ [req "file" KModel VNone]
  | GroupAdminNoticeEvent => notice_fields "group_admin" VStrIfTruthy ++ [opt "sub_type" KStr (OStr "set") VNone]
  | GroupDecreaseNoticeEvent =>
      notice_fields "group_decrease" VStrIfTruthy ++
      [opt "sub_type" KStr (OStr "leave") VNone; req "operator_id" KStr VStr]
  | GroupIncreaseNoticeEvent =>
      notice_fields "group_increase" VStrIfTruthy ++
      [opt "sub_type" KStr (OStr "approve") VNone; req "operator_id" KStr VStr]
  | GroupBanNoticeEvent =>
      notice_fields "group_ban" VStrIfTruthy ++
      [opt "sub_type" KStr (OStr "ban") VNone; req "operator_id" KStr VStr;
       req "duration" KInt VNone]
  | FriendAddNoticeEvent => notice_fields "friend_add" VStrIfTruthy
  | GroupRecallNoticeEvent =>
      notice_fields "group_recall" VNone ++
      [req "operator_id" KStr VStr; req "message_id" KStr VStr]
  | FriendRecallNoticeEvent => notice_fields "friend_recall" VStrIfTruthy ++ [req "message_id" KStr VStr]
  | PokeNotifyEvent =>
      notice_fields "notify" VStrIfTruthy ++
      [opt "sub_type" KStr (OStr "poke") VNone; req "target_id" KStr VStr]
  | LuckyKingNotifyEvent =>
      notice_fields "notify" VStrIfTruthy ++
      [opt "sub_type" KStr (OStr "lucky_king") VNone; req "target_id" KStr VStr]
  | HonorNotifyEvent =>
      notice_fields "notify" VStrIfTruthy ++
      [opt "sub_type" KStr (OStr "honor") VNone;
       req "honor_type" (KEnum ["talkative"; "performer"; "emotion"]) VNone]
  end.

(** A parsed event: its variant and its validated declared fields (the
    bound API handle is not modelled). *)
Record parsed := mkParsed { p_cls : event_cls; p_fields : list (string * out) }.

Fixpoint validate_fields (fs : list field) (data : payload) : option (list (string * out)) :=
  match fs with
  | [] => Some []
  | f :: fs' =>
      match validate_field f data, validate_fields fs' data with
      | Some o, Some rest => Some ((f_name f, o) :: rest)
      | _, _ => None
      end
  end.

(** What [EventParser.parse] does: return an event, raise [ValueError],
    or raise [TypeError] when the registry lookup hashes an unhashable
    [post_type]. *)
Inductive parse_result :=
  | Parsed (e : parsed)
  | RaiseValueError (msg : string)
  | RaiseTypeError.

(** Whether [hash] accepts the value: a list or a dict does not. *)
Definition hashable (v : jval) : bool :=
  match v with
  | JComp _ _ => false
  | _ => true
  end.

(** [EventParser.parse]. *)
Definition parse (data : payload) : parse_result :=
  match data !! "post_type" with
  | None => RaiseValueError "Data missing 'post_type'"
  | Some pt =>
      if negb (truthy pt) then RaiseValueError "Data missing 'post_type'" else
      let sec_key := get_secondary_key data in
      if negb (hashable pt) then RaiseTypeError else
      match lookup_variant pt sec_key with
      | None => RaiseValueError ("Unknown event type: " ++ py_str pt ++ " -> " ++ sec_key)%string
      | Some c =>
          match validate_fields (fields_of c) data with
          | Some fs => Parsed (mkParsed c fs)
          | None => RaiseValueError ("Event parsing failed for " ++ cls_name c)%string
          end
      end
  end.

End EventParser.

(* ------------------------------------------------------------------ *)
(** ** Service manager (manager.py) *)
(* ------------------------------------------------------------------ *)

Module ServiceManager.

(** The two dicts, by their keys in insertion order: [_service_classes]
    (registered names) and [_services] (loaded names). *)
Record manager := mkManager {
  service_classes : list string;
  services : list string
}.

(** Observable lifecycle calls: [await service._load()] and
    [await service._close()]. *)
Inductive effect := Load (name : string) | Close (name : string).

(** [KeyError] for an unregistered name, the exception of the service
    constructor, the exception of [_load] or [_close]. *)
Inductive err := KeyError (name : string) | InitError (name : string) | ServiceError (name : string).

Definition mem (n : string) (l : list string) : bool := existsb (String.eqb n) l.

(** [register]: assigning an existing dict key keeps its position. *)
Definition register (name : string) (m : manager) : manager :=
  if mem name (service_classes m) then m
  else mkManager (service_classes m ++ [name]) (services m).

Section Manager.

(** Whether the constructor call [self._service_classes[name]( **config)]
    returns or raises. *)
Variable construct_ok : string -> bool.
(** Whether [service._load()] / [service._close()] completes or raises. *)
Variable load_ok : string -> bool.
Variable close_ok : string -> bool.

(** [ServiceManager.load]. *)
Definition load (name : string) (m : manager) : list effect * (manager + err) :=
  if mem name (services m) then ([], inl m)
  else if negb (mem name (service_classes m)) then ([], inr (KeyError name))
  else if negb (construct_ok name) then ([], inr (InitError name))
  else ([Load name],
        if load_ok name then inl (mkManager (service_classes m) (services m ++ [name]))
        else inr (ServiceError name)).

(** [ServiceManager.unload]. *)
Definition unload (name : string) (m : manager) : list effect * (manager + err) :=
  if negb (mem name (services m)) then ([], inl m)
  else ([Close name],
        if close_ok name then
          inl (mkManager (service_classes m) (List.filter (fun n => negb (String.eqb n name)) (services m)))
        else inr (ServiceError name)).

(** Running [step] over [names] in order, stopping at the first error. *)
Fixpoint for_each (step : string -> manager -> list effect * (manager + err))
    (names : list string) (m : manager) : list effect * (manager + err) :=
  match names with
  | [] => ([], inl m)
  | n :: ns =>
      let '(tr, r) := step n m in
      match r with
      | inl m' => let '(tr', r') := for_each step ns m' in (tr ++ tr', r')
      | inr e => (tr, inr e)
      end
  end.

(** [ServiceManager.load_all]: [for name in self._service_classes: if name
    not in self._services: await self.load(name)]. *)
Definition load_all (m : manager) : list effect * (manager + err) :=
  for_each (fun n m' => if mem n (services m') then ([], inl m') else load n m')
           (service_classes m) m.

(** [ServiceManager.close_all]: [for name in list(self._services.keys()):
    await self.unload(name)]. *)
Definition close_all (m : manager) : list effect * (manager + err) :=
  for_each unload (services m) m.

End Manager.

End ServiceManager.

(* ------------------------------------------------------------------ *)
(** ** Plugin module import (loader/importer.py) *)
(* ------------------------------------------------------------------ *)

Module Importer.

(** Values stored in [sys.modules]: the synthetic package created by
    [module_from_spec(ModuleSpec(pkg_name, None, is_package=True))], the
    entry module created from the entry file's spec, or any module that
    was already registered before the call. *)
Inductive modv :=
| MPkg (path : string)
| MEntry (name : string)
| MOther (tag : nat).

(** The two pieces of interpreter state the function touches. *)
Record sys_state := mkSys {
  sys_modules : gmap string modv;
  sys_path : list string
}.

Inductive load_result :=
| Loaded (m : modv)
| RaisedImportError   (** spec or loader is [None] *)
| RaisedExecError.    (** [spec.loader.exec_module(module)] raised *)

(** [_get_plugin_pkg_name]. *)
Definition plugin_pkg_name (sanitized : string) : string :=
  ("ncatbot_plugin." ++ sanitized)%string.

(** [_get_plugin_main_module_name]: the entry module lives in the package. *)
Definition plugin_main_module_name (sanitized stem : string) : string :=
  (plugin_pkg_name sanitized ++ "." ++ stem)%string.

Section Importer.

(** Whether [spec_from_file_location] yields a spec with a loader. *)
Variable spec_ok : bool.
(** [spec.loader.exec_module(module)]: runs the plugin's top-level code,
    which may itself touch the interpreter state, and completes ([true])
    or raises ([false]). *)
Variable exec_module : sys_state -> sys_state * bool.

(** [_ModuleImporter.load_plugin_module], from the copy of [sys.path] to
    the [finally] clause. *)
Definition load_plugin_module (plugin_path sanitized stem : string)
    (s : sys_state) : sys_state * load_result :=
  let original_sys_path := sys_path s in
  let s1 := mkSys (sys_modules s) (plugin_path :: sys_path s) in
  let pkg_name := plugin_pkg_name sanitized in
  let module_name := plugin_main_module_name sanitized stem in
  let '(s2, created_pkg) :=
    match sys_modules s1 !! pkg_name with
    | Some _ => (s1, false)
    | None => (mkSys (<[pkg_name := MPkg plugin_path]> (sys_modules s1)) (sys_path s1), true)
    end in
  if negb spec_ok then (mkSys (sys_modules s2) original_sys_path, RaisedImportError)
  else
    let module := MEntry module_name in
    let s3 := mkSys (<[module_name := module]> (sys_modules s2)) (sys_path s2) in
    let created_module := true in
    let '(s4, ok) := exec_module s3 in
    if ok then (mkSys (sys_modules s4) original_sys_path, Loaded module)
    else
      let m5 := if created_module then delete module_name (sys_modules s4) else sys_modules s4 in
      let m6 := if created_pkg then delete pkg_name m5 else m5 in
      (mkSys m6 original_sys_path, RaisedExecError).

End Importer.

(** ** [_ensure_sanitized]: plugin names are Python [str], modelled by
    their code points. *)

(** The class [[0-9a-zA-Z_]] of the pattern [r"[^0-9a-zA-Z_]"]. *)
Definition keeps (c : N) : bool :=
  ((48 <=? c) && (c <=? 57))%N || ((65 <=? c) && (c <=? 90))%N
  || ((97 <=? c) && (c <=? 122))%N || (c =? 95)%N.

Definition sub_char (c : N) : ascii := if keeps c then ascii_of_N c else "_"%char.

(** [re.sub(r"[^0-9a-zA-Z_]", "_", plugin_name)]: one character out per
    character in; every character left is ASCII. *)
Definition re_sub_name (name : list N) : string :=
  string_of_list_ascii (map sub_char name).

(** [str.isdigit] on a character of the [re.sub] result, which is ASCII. *)
Definition is_digit (a : ascii) : bool :=
  ((48 <=? N_of_ascii a) && (N_of_ascii a <=? 57))%N.

(** [base_sanitized] after its two [if]s. *)
Definition base_name (plugin_name : list N) : string :=
  let b := re_sub_name plugin_name in
  let b := match b with
           | String c _ => if is_digit c then ("_" ++ b)%string else b
           | EmptyString => b
           end in
  match b with
  | EmptyString => "_plugin"%string
  | _ => b
  end.

(** [while sanitized in self._used_sanitized: sanitized =
    f"{base_sanitized}_{idx}"; idx += 1], run for at most [fuel] tests;
    [_ensure_sanitized] gives it [len(self._used_sanitized) + 1] tests,
    which always suffice (see [next_free_fresh]). *)
Fixpoint next_free (base : string) (used : gset string) (sanitized : string)
    (idx : nat) (fuel : nat) : string :=
  match fuel with
  | O => sanitized
  | S fuel' =>
      if bool_decide (sanitized ∈ used)
      then next_free base used (base ++ "_" ++ EventParser.z_to_str (Z.of_nat idx))%string
                     (S idx) fuel'
      else sanitized
  end.

(** [_sanitized_names] and [_used_sanitized]. *)
Record names := mkNames {
  sanitized_names : gmap (list N) string;
  used_sanitized : gset string
}.

(** [_ModuleImporter._ensure_sanitized]. *)
Definition ensure_sanitized (plugin_name : list N) (st : names) : names * string :=
  match sanitized_names st !! plugin_name with
  | Some s => (st, s)
  | None =>
      let base := base_name plugin_name in
      let used := used_sanitized st in
      let s := next_free base used base 1 (S (size used)) in
      (mkNames (<[plugin_name := s]> (sanitized_names st)) ({[s]} ∪ used), s)
  end.

(** ** [unload_plugin_module]; here plugin names are the [str] keys of
    [_sanitized_names] as the loader passes them. *)

(** [_get_plugin_pkg_name]: [self._sanitized_names.get(name, name)]. *)
Definition get_plugin_pkg_name (sn : gmap string string) (name : string) : string :=
  plugin_pkg_name (default name (sn !! name)).

(** [module_name == pkg_name or module_name.startswith(f"{pkg_name}.")]. *)
Definition in_namespace (pkg_name module_name : string) : bool :=
  String.eqb module_name pkg_name || PyStr.startswith (pkg_name ++ ".") module_name.

(** [_ModuleImporter.unload_plugin_module], on [sys.modules]. *)
Definition unload_plugin_module (sn : gmap string string) (plugin_name : string)
    (mods : gmap string modv) : gmap string modv * bool :=
  if String.eqb plugin_name "" then (mods, false) else
  let pkg_name := get_plugin_pkg_name sn plugin_name in
  let modules_to_remove :=
    List.filter (in_namespace pkg_name) (map fst (map_to_list mods)) in
  match modules_to_remove with
  | [] => (mods, true)
  | _ => (fold_left (fun m k => delete k m) modules_to_remove mods, true)
  end.

End Importer.

(* ------------------------------------------------------------------ *)
(** ** File watcher (file_watcher/service.py) *)
(* ------------------------------------------------------------------ *)

Module FileWatcher.

(** An absolute, resolved path as its list of components below [/]. *)
Abbreviation path := (list string).

(** [str(path)] with [os.sep = "/"]. *)
Fixpoint join_sep (l : list string) : string :=
  match l with
  | [] => EmptyString
  | w :: ws => ("/" ++ w ++ join_sep ws)%string
  end.

Definition path_str (p : path) : string := join_sep p.

(** Python's [sub in s] on strings. *)
Fixpoint contains (sub s : string) : bool :=
  String.prefix sub s ||
  match s with
  | EmptyString => false
  | String _ s' => contains sub s'
  end.

(** [name.endswith(suf)]. *)
Definition ends_with (suf s : string) : bool :=
  (String.length suf <=? String.length s)%nat &&
  String.eqb (substring (String.length s - String.length suf) (String.length suf) s) suf.

Definition path_eqb (p q : path) : bool := bool_decide (p = q).

(** [d] is a strict ancestor of [p]. *)
Fixpoint strictly_below (d p : path) : bool :=
  match d, p with
  | [], _ :: _ => true
  | x :: d', y :: p' => String.eqb x y && strictly_below d' p'
  | _, _ => false
  end.

(** The file system as seen by one scan: the regular files with their
    modification times, and the existing directories. *)
Record fs_snapshot := mkFs {
  fs_files : list (path * Z);
  fs_dirs : list path
}.

(** [Path(d).rglob("*.py")]. *)
Definition rglob_py (fs : fs_snapshot) (d : path) : list (path * Z) :=
  List.filter (fun '(p, _) => strictly_below d p && ends_with ".py" (List.last p EmptyString))
    (fs_files fs).

(** [os.path.exists]. *)
Definition file_exists (fs : fs_snapshot) (p : path) : bool :=
  existsb (fun '(q, _) => path_eqb q p) (fs_files fs).

Definition dir_exists (fs : fs_snapshot) (d : path) : bool :=
  existsb (path_eqb d) (fs_dirs fs).

Fixpoint common_len (p s : path) : nat :=
  match p, s with
  | x :: p', y :: s' => if String.eqb x y then S (common_len p' s') else O
  | _, _ => O
  end.

(** [os.path.relpath(p, start).split(os.sep)] for absolute normalised
    paths: one [".."] per component of [start] below the common prefix,
    then the rest of [p]; the relative path of [start] itself is ["."]. *)
Definition relpath_parts (p start : path) : list string :=
  match repeat ".." (length start - common_len p start) ++ drop (common_len p start) p with
  | [] => ["."]
  | r => r
  end.

(** The watcher's fields; [paused] is [not self._paused.is_set()] and
    [has_callback] is whether [_reload_callback] is set. Times are in
    clock ticks. *)
Record fw := mkFw {
  file_cache : gmap path Z;
  first_scan_done : bool;
  pending_dirs : gset string;
  last_process_time : Z;
  paused : bool;
  has_callback : bool;
  debounce_delay : Z;
  watch_dirs : list path
}.

Definition with_cache (c : gmap path Z) (st : fw) : fw :=
  mkFw c (first_scan_done st) (pending_dirs st) (last_process_time st)
       (paused st) (has_callback st) (debounce_delay st) (watch_dirs st).

Definition with_pending (p : gset string) (st : fw) : fw :=
  mkFw (file_cache st) (first_scan_done st) p (last_process_time st)
       (paused st) (has_callback st) (debounce_delay st) (watch_dirs st).

Definition with_first_scan_done (b : bool) (st : fw) : fw :=
  mkFw (file_cache st) b (pending_dirs st) (last_process_time st)
       (paused st) (has_callback st) (debounce_delay st) (watch_dirs st).

Definition with_last (t : Z) (st : fw) : fw :=
  mkFw (file_cache st) (first_scan_done st) (pending_dirs st) t
       (paused st) (has_callback st) (debounce_delay st) (watch_dirs st).

Definition with_paused (b : bool) (st : fw) : fw :=
  mkFw (file_cache st) (first_scan_done st) (pending_dirs st) (last_process_time st)
       b (has_callback st) (debounce_delay st) (watch_dirs st).

(** [pause]: [self._paused.clear()]; [resume]: [self._paused.set()]. *)
Definition pause (st : fw) : fw := with_paused true st.
Definition resume (st : fw) : fw := with_paused false st.

Section Watcher.

(** [getattr(config, "debug", False)]. *)
Variable debug : bool.

(** [_on_file_changed]. *)
Definition on_file_changed (file_path plugins_dir : path) (st : fw) : fw :=
  if negb debug then st
  else match relpath_parts file_path plugins_dir with
       | first_level_dir :: _ :: _ => with_pending ({[first_level_dir]} ∪ pending_dirs st) st
       | _ => st
       end.

(** One file of the [rglob] loop of [_scan_files]. *)
Definition scan_one (plugins_dir : path) (st : fw) (f : path * Z) : fw :=
  let '(file_path, mod_time) := f in
  if contains "site-packages" (path_str file_path) then st
  else match file_cache st !! file_path with
       | None =>
           let st' := with_cache (<[file_path := mod_time]> (file_cache st)) st in
           if first_scan_done st' then on_file_changed file_path plugins_dir st' else st'
       | Some old =>
           if Z.eqb old mod_time then st
           else on_file_changed file_path plugins_dir
                  (with_cache (<[file_path := mod_time]> (file_cache st)) st)
       end.

(** One file of the [deleted] loop of [_scan_files]. *)
Definition drop_one (plugins_dir : path) (st : fw) (file_path : path) : fw :=
  let st' := with_cache (delete file_path (file_cache st)) st in
  if first_scan_done st' then on_file_changed file_path plugins_dir st' else st'.

(** [_scan_files]. *)
Definition scan_files (fs : fs_snapshot) (plugins_dir : path) (st : fw) : fw :=
  let st1 := fold_left (scan_one plugins_dir) (rglob_py fs plugins_dir) st in
  let deleted := List.filter (fun f => negb (file_exists fs f))
                   (map fst (map_to_list (file_cache st1))) in
  let st2 := fold_left (drop_one plugins_dir) deleted st1 in
  with_first_scan_done true st2.

(** The scanning half of one [_watch_loop] iteration, over
    [list(self._watch_dirs)] in its iteration order. *)
Definition scan_all (fs : fs_snapshot) (st : fw) : fw :=
  fold_left (fun st d => if dir_exists fs d then scan_files fs d st else st)
    (watch_dirs st) st.

End Watcher.

(** [_process_pending] at time [now]: the directories passed to
    [_trigger_reload], in order, and the new state. *)
Definition process_pending (now : Z) (st : fw) : list string * fw :=
  if paused st then ([], st)
  else if bool_decide (pending_dirs st = ∅) then ([], st)
  else if now - last_process_time st <? debounce_delay st then ([], st)
  else
    let dirs_to_process := pending_dirs st in
    let st' := with_last now (with_pending ∅ st) in
    if negb (has_callback st) then ([], st')
    else (elements dirs_to_process, st').

(** One iteration of [_watch_loop]. *)
Definition iteration (debug : bool) (fs : fs_snapshot) (now : Z) (st : fw) : list string * fw :=
  process_pending now (scan_all debug fs st).

End FileWatcher.

(* ------------------------------------------------------------------ *)
(** ** Plugin configuration store (plugin_config_service.py) *)
(* ------------------------------------------------------------------ *)

Module PluginConfig.

(** Configuration values. *)
Inductive pyval :=
| PNone
| PBool (b : bool)
| PInt (z : Z)
| PStr (s : string).

(** Python [==] on these values: [bool] is a subclass of [int], so
    [True == 1]. *)
Definition py_eq (a b : pyval) : bool :=
  match a, b with
  | PNone, PNone => true
  | PBool x, PBool y => Bool.eqb x y
  | PInt x, PInt y => Z.eqb x y
  | PBool x, PInt y => Z.eqb (Z.b2z x) y
  | PInt x, PBool y => Z.eqb x (Z.b2z y)
  | PStr x, PStr y => String.eqb x y
  | _, _ => false
  end.

Inductive value_type := TStr | TInt | TFloat | TBool | TDict | TList.

(** A [ConfigItem]: its [value_type] and its [on_change] callback, by
    identity. *)
Record config_item := mkItem {
  ci_value_type : value_type;
  ci_on_change : option nat
}.

Record service := mkSvc {
  configs : gmap string (gmap string pyval);
  config_items : gmap string (gmap string config_item);
  dirty : bool
}.

(** Observable effects of [set]: a call of [on_change(old, new)] and the
    warning logged when that call raises. *)
Inductive effect :=
| OnChange (cb : nat) (old new : pyval)
| Warning (cb : nat).

Inductive set_error := ParseValueError.

(** [PluginConfigService.get]. *)
Definition get (s : service) (plugin_name name : string) (dflt : pyval) : pyval :=
  default dflt (default ∅ (configs s !! plugin_name) !! name).

Section SetValue.

(** [ConfigItem.parse_value] by value type; [None] when it raises. *)
Variable parse_value : value_type -> pyval -> option pyval.
(** Whether the call [on_change(old, new)] raises an [Exception]. *)
Variable on_change_raises : nat -> pyval -> pyval -> bool.

(** [PluginConfigService.set]. *)
Definition set (plugin_name name : string) (value : pyval) (s : service)
    : list effect * (service * (pyval * pyval) + service * set_error) :=
  let configs1 :=
    match configs s !! plugin_name with
    | Some _ => configs s
    | None => <[plugin_name := ∅]> (configs s)
    end in
  let pc := default ∅ (configs1 !! plugin_name) in
  let old_value := default PNone (pc !! name) in
  let store v := mkSvc (<[plugin_name := <[name := v]> pc]> configs1) (config_items s) true in
  match default ∅ (config_items s !! plugin_name) !! name with
  | None => ([], inl (store value, (old_value, value)))
  | Some config_item =>
      match parse_value (ci_value_type config_item) value with
      | None => ([], inr (mkSvc configs1 (config_items s) (dirty s), ParseValueError))
      | Some v =>
          let eff :=
            match ci_on_change config_item with
            | Some cb =>
                if negb (py_eq old_value v) then
                  OnChange cb old_value v ::
                  (if on_change_raises cb old_value v then [Warning cb] else [])
                else []
            | None => []
            end in
          (eff, inl (store v, (old_value, v)))
      end
  end.

End SetValue.

(** [if plugin_name not in d: d[plugin_name] = {}]. *)
Definition ensure_plugin {A} (plugin_name : string)
    (m : gmap string (gmap string A)) : gmap string (gmap string A) :=
  match m !! plugin_name with
  | Some _ => m
  | None => <[plugin_name := ∅]> m
  end.

(** [PluginConfigService._atomic_save]: nothing when the service is not
    dirty; otherwise [saved] tells whether [_save_to_file_sync] ran and
    wrote the file, which clears the dirty flag.  A failed write, or a
    write only scheduled on the running event loop, leaves the flag set. *)
Definition atomic_save (saved : bool) (s : service) : service :=
  if dirty s && saved then mkSvc (configs s) (config_items s) false else s.

(** [PluginConfigService.set_atomic]: [set], then [_atomic_save] when it
    returned. *)
Definition set_atomic parse_value on_change_raises (saved : bool)
    (plugin_name name : string) (value : pyval) (s : service)
    : list effect * (service * (pyval * pyval) + service * set_error) :=
  let '(eff, r) := set parse_value on_change_raises plugin_name name value s in
  (eff, match r with
        | inl (s', res) => inl (atomic_save saved s', res)
        | inr e => inr e
        end).

(** [PluginConfigService.delete_config_item]. *)
Definition delete_config_item (saved : bool) (plugin_name name : string)
    (s : service) : service :=
  match configs s !! plugin_name with
  | Some pc =>
      match pc !! name with
      | Some _ =>
          atomic_save saved
            (mkSvc (<[plugin_name := delete name pc]> (configs s))
                   (config_items s) true)
      | None => s
      end
  | None => s
  end.

(** [dict.update] with the items of a dict, in order. *)
Definition dict_update (d : gmap string pyval) (upd : list (string * pyval))
    : gmap string pyval :=
  fold_left (fun d '(k, v) => <[k := v]> d) upd d.

(** [PluginConfigService.set_plugin_config]. *)
Definition set_plugin_config (plugin_name : string)
    (config : list (string * pyval)) (s : service) : service :=
  let configs1 := ensure_plugin plugin_name (configs s) in
  mkSvc (<[plugin_name := dict_update (default ∅ (configs1 !! plugin_name)) config]>
           configs1)
        (config_items s) true.

(** [PluginConfigService.set_plugin_config_atomic]. *)
Definition set_plugin_config_atomic (saved : bool) (plugin_name : string)
    (config : list (string * pyval)) (s : service) : service :=
  atomic_save saved (set_plugin_config plugin_name config s).

(** [PluginConfigService.delete_plugin_config]. *)
Definition delete_plugin_config (plugin_name : string) (s : service) : service :=
  let s1 :=
    match configs s !! plugin_name with
    | Some _ => mkSvc (delete plugin_name (configs s)) (config_items s) true
    | None => s
    end in
  mkSvc (configs s1) (delete plugin_name (config_items s1)) (dirty s1).

(** [PluginConfigService.migrate_from_legacy]: only keys the plugin has
    no value for are taken over. *)
Definition migrate_from_legacy (plugin_name : string)
    (legacy_config : list (string * pyval)) (s : service) : service :=
  let configs1 := ensure_plugin plugin_name (configs s) in
  let pc :=
    fold_left (fun pc '(key, value) =>
                 match pc !! key with
                 | Some _ => pc
                 | None => <[key := value]> pc
                 end)
              legacy_config (default ∅ (configs1 !! plugin_name)) in
  mkSvc (<[plugin_name := pc]> configs1) (config_items s) true.

Inductive register_error := AlreadyRegistered | CoerceError.

Section Register.

(** [value_type(default_value) if not isinstance(default_value, value_type)
    else default_value], for the value types other than [dict] and [list];
    [None] when the conversion raises. *)
Variable coerce : value_type -> pyval -> option pyval.

(** The value [register_config] stores for a missing key: a deep copy of
    the default for [dict] and [list], its conversion otherwise. *)
Definition default_to_store (vt : value_type) (default_value : pyval) : option pyval :=
  match vt with
  | TDict | TList => Some default_value
  | _ => coerce vt default_value
  end.

(** [PluginConfigService.register_config], with [value_type] already a
    type.  The item is registered before the default value is converted,
    so a conversion that raises leaves it registered. *)
Definition register_config (plugin_name name : string) (default_value : pyval)
    (vt : value_type) (on_change : option nat) (s : service)
    : service + service * register_error :=
  let items1 := ensure_plugin plugin_name (config_items s) in
  let pi := default ∅ (items1 !! plugin_name) in
  match pi !! name with
  | Some _ => inr (mkSvc (configs s) items1 (dirty s), AlreadyRegistered)
  | None =>
      let items2 := <[plugin_name := <[name := mkItem vt on_change]> pi]> items1 in
      let configs1 := ensure_plugin plugin_name (configs s) in
      let pc := default ∅ (configs1 !! plugin_name) in
      match pc !! name with
      | Some _ => inl (mkSvc configs1 items2 (dirty s))
      | None =>
          match default_to_store vt default_value with
          | Some v => inl (mkSvc (<[plugin_name := <[name := v]> pc]> configs1) items2 true)
          | None => inr (mkSvc configs1 items2 (dirty s), CoerceError)
          end
      end
  end.

End Register.

(** [str.lower] on one character (code point below 256): [A-Z] and the
    Latin-1 capitals [À-Þ] except [×] move up by 32. *)
Definition lower_char (c : ascii) : ascii :=
  let n := nat_of_ascii c in
  if ((65 <=? n) && (n <=? 90))%nat
     || ((192 <=? n) && (n <=? 222) && negb (n =? 215))%nat
  then ascii_of_nat (n + 32) else c.

(** [str.lower]. *)
Fixpoint py_lower (s : string) : string :=
  match s with
  | EmptyString => EmptyString
  | String c r => String (lower_char c) (py_lower r)
  end.

(** [ConfigItem.parse_value] for [value_type is bool]; [None] when it
    raises [ValueError]. *)
Definition parse_value_bool (value : pyval) : option pyval :=
  match value with
  | PBool b => Some (PBool b)
  | PStr s =>
      if existsb (String.eqb (py_lower s)) ["true"; "1"; "yes"; "on"] then Some (PBool true)
      else if existsb (String.eqb (py_lower s)) ["false"; "0"; "no"; "off"] then Some (PBool false)
      else None
  | _ => None
  end.

(** The read-only wrapper [PluginConfig]: its plugin name and its own deep
    copy [_data] of the plugin's configuration. *)
Record plugin_config := mkPluginConfig {
  pc_plugin_name : string;
  pc_data : gmap string pyval
}.

(** [PluginConfigService.get_plugin_config_wrapper]. *)
Definition get_plugin_config_wrapper (plugin_name : string) (s : service)
    : service * plugin_config :=
  let configs1 := ensure_plugin plugin_name (configs s) in
  (mkSvc configs1 (config_items s) (dirty s),
   mkPluginConfig plugin_name (default ∅ (configs1 !! plugin_name))).

(** [PluginConfig.get]. *)
Definition pc_get (w : plugin_config) (key : string) (dflt : pyval) : pyval :=
  default dflt (pc_data w !! key).

(** [PluginConfig.update]. *)
Definition pc_update parse_value on_change_raises (saved : bool)
    (w : plugin_config) (key : string) (value : pyval) (s : service)
    : list effect * (service * plugin_config * (pyval * pyval) + service * set_error) :=
  let '(eff, r) :=
    set_atomic parse_value on_change_raises saved (pc_plugin_name w) key value s in
  (eff, match r with
        | inl (s', (o, n)) =>
            inl (s', mkPluginConfig (pc_plugin_name w) (<[key := n]> (pc_data w)), (o, n))
        | inr e => inr e
        end).

(** [PluginConfig.remove]; [None] when it raises [KeyError]. *)
Definition pc_remove (saved : bool) (w : plugin_config) (key : string) (s : service)
    : option (service * plugin_config * pyval) :=
  match pc_data w !! key with
  | None => None
  | Some old_value =>
      Some (delete_config_item saved (pc_plugin_name w) key s,
            mkPluginConfig (pc_plugin_name w) (delete key (pc_data w)),
            old_value)
  end.

(** [PluginConfig.bulk_update]. *)
Definition pc_bulk_update (saved : bool) (w : plugin_config)
    (updates : list (string * pyval)) (s : service) : service * plugin_config :=
  match updates with
  | [] => (s, w)
  | _ => (set_plugin_config_atomic saved (pc_plugin_name w) updates s,
          mkPluginConfig (pc_plugin_name w) (dict_update (pc_data w) updates))
  end.

End PluginConfig.

(* ================================================================== *)
(** * Properties *)
(* ================================================================== *)

(* ------------------------------------------------------------------ *)
(** ** Event bus: ordering of the dispatch set *)
(* ------------------------------------------------------------------ *)

Module EventBusOrder.
Import PyStr EventBus.

Definition name_of (e : entry) : string := h_name (e_handler e).

(** [a] may precede [b] in a list sorted by the key. *)
Definition key_le (a b : entry) : Prop := key_ltb b a = false.

(** Entries whose sort key is [(-p, n)]. *)
Definition same_key (p : Z) (n : string) (e : entry) : bool :=
  (e_priority e =? p) && String.eqb (name_of e) n.

Lemma string_ltb_false s1 s2 : String.ltb s2 s1 = false -> String.le s1 s2.
Proof.
  unfold String.ltb, String.le, String.leb. intros H.
  rewrite String.compare_antisym in H.
  destruct (String.compare s1 s2); simpl in *; done.
Qed.

Lemma string_le_ltb s1 s2 : String.le s1 s2 -> String.ltb s2 s1 = false.
Proof.
  unfold String.ltb, String.le, String.leb. intros H.
  rewrite String.compare_antisym.
  destruct (String.compare s1 s2); simpl in *; done.
Qed.

Lemma key_le_spec a b :
  key_le a b <->
  e_priority b < e_priority a
  \/ (e_priority a = e_priority b /\ String.le (name_of a) (name_of b)).
Proof.
  unfold key_le, key_ltb, name_of. split.
  - intros H. apply orb_false_iff in H as [H1 H2].
    apply Z.ltb_ge in H1.
    destruct (Z.eq_dec (e_priority a) (e_priority b)) as [E|E].
    + right. split; [done|]. rewrite E, Z.eqb_refl in H2. simpl in H2.
      by apply string_ltb_false.
    + left. lia.
  - intros [H|[H1 H2]].
    + apply orb_false_iff. split; [apply Z.ltb_ge; lia|].
      apply andb_false_iff. left. apply Z.eqb_neq. lia.
    + apply orb_false_iff. split; [apply Z.ltb_ge; lia|].
      rewrite H1, Z.eqb_refl. simpl. by apply string_le_ltb.
Qed.

Lemma key_le_trans a b c : key_le a b -> key_le b c -> key_le a c.
Proof.
  rewrite !key_le_spec. intros [H1|[H1 H2]] [H3|[H3 H4]].
  - left. lia.
  - left. lia.
  - left. lia.
  - right. split; [lia|]. by etrans.
Qed.

Lemma key_ltb_le a b : key_ltb a b = true -> key_le a b.
Proof.
  unfold key_le, key_ltb. intros H.
  apply orb_true_iff in H as [H|H].
  - apply Z.ltb_lt in H. apply orb_false_iff. split.
    + apply Z.ltb_ge. lia.
    + apply andb_false_iff. left. apply Z.eqb_neq. lia.
  - apply andb_true_iff in H as [H1 H2]. apply Z.eqb_eq in H1.
    apply orb_false_iff. split.
    + apply Z.ltb_ge. lia.
    + rewrite H1, Z.eqb_refl. simpl.
      unfold String.ltb in *. rewrite String.compare_antisym.
      destruct (String.compare _ _); simpl in *; done.
Qed.

Lemma ins_perm x l : Permutation (ins x l) (x :: l).
Proof.
  induction l as [|y ys IH]; simpl; [done|].
  destruct (key_ltb y x).
  - rewrite IH. constructor.
  - done.
Qed.

Lemma sort_by_key_perm l : Permutation (sort_by_key l) l.
Proof.
  induction l as [|x xs IH]; simpl; [done|].
  rewrite ins_perm. by constructor.
Qed.

Lemma ins_sorted x l :
  StronglySorted key_le l -> StronglySorted key_le (ins x l).
Proof.
  induction l as [|y ys IH]; simpl; intros Hs.
  - repeat constructor.
  - inversion Hs as [|? ? Hys Hall]; subst.
    destruct (key_ltb y x) eqn:E.
    + constructor; [by apply IH|].
      apply Forall_forall. intros z Hz.
      apply list_elem_of_In, (Permutation_in _ (ins_perm x ys)) in Hz.
      destruct Hz as [<-|Hz]; [by apply key_ltb_le|].
      apply list_elem_of_In in Hz. by eapply Forall_forall in Hall.
    + constructor; [done|]. constructor; [done|].
      apply Forall_forall. intros z Hz.
      eapply key_le_trans; [exact E|]. by eapply Forall_forall in Hall.
Qed.

Lemma sort_by_key_sorted l : StronglySorted key_le (sort_by_key l).
Proof.
  induction l as [|x xs IH]; simpl; [constructor|]. by apply ins_sorted.
Qed.

Lemma strongly_sorted_lookup {A} (R : A -> A -> Prop) (l : list A) i j a b :
  StronglySorted R l -> (i < j)%nat -> l !! i = Some a -> l !! j = Some b -> R a b.
Proof.
  intros Hs. revert i j. induction Hs as [|x xs Hxs IH Hall]; intros i j Hij Ha Hb.
  - done.
  - destruct i as [|i]; destruct j as [|j]; simpl in *; try lia.
    + injection Ha as <-. eapply Forall_forall; [exact Hall|].
      by eapply list_elem_of_lookup_2.
    + apply (IH i j); [lia|done|done].
Qed.

Lemma string_ltb_irrefl s : String.ltb s s = false.
Proof.
  unfold String.ltb. pose proof (String.compare_antisym s s) as H.
  destruct (String.compare s s); simpl in *; done.
Qed.

(** Python compares the whole key, so an entry inserted in front of [y]
    never jumps over an entry with the same key. *)
Lemma key_ltb_same_key p n x y :
  key_ltb y x = true -> same_key p n y = true -> same_key p n x = false.
Proof.
  unfold key_ltb, same_key, name_of. intros H Hy.
  destruct ((e_priority x =? p) && String.eqb (h_name (e_handler x)) n) eqn:Hx;
    [|done]. exfalso.
  apply andb_true_iff in Hy as [Hy1 Hy2], Hx as [Hx1 Hx2].
  apply Z.eqb_eq in Hy1, Hx1. apply String.eqb_eq in Hy2, Hx2.
  rewrite Hy1, Hx1, Hy2, Hx2, Z.ltb_irrefl, Z.eqb_refl, string_ltb_irrefl in H.
  done.
Qed.

Lemma filter_ins p n x l :
  List.filter (same_key p n) (ins x l) = List.filter (same_key p n) (x :: l).
Proof.
  induction l as [|y ys IH]; simpl; [done|].
  destruct (key_ltb y x) eqn:E; simpl; [|done].
  rewrite IH. simpl.
  destruct (same_key p n y) eqn:Hy.
  - rewrite (key_ltb_same_key p n x y E Hy). done.
  - done.
Qed.

(** Stability: entries with equal keys keep their relative order. *)
Lemma filter_sort_by_key p n l :
  List.filter (same_key p n) (sort_by_key l) = List.filter (same_key p n) l.
Proof.
  induction l as [|x xs IH]; simpl; [done|].
  rewrite filter_ins. simpl. rewrite IH. done.
Qed.

Section Dispatch.
Variable re_match : string -> string -> bool.
Variable run : entry -> event -> outcome * bool.

(** The handlers [publish] invokes are a prefix of the collected list. *)
Lemma dispatch_prefix meta hs ev :
  exists rest, hs = map fst (fst (dispatch run meta hs ev)) ++ rest.
Proof.
  revert ev. induction hs as [|e hs IH]; intros ev; simpl.
  - by exists [].
  - destruct (ev_stopped ev); [by exists (e :: hs)|].
    destruct (run e ev) as [o stop].
    destruct o as [v|x|]; [| destruct (exc_cls x) |]; simpl;
      try (by exists hs);
      match goal with
      | |- context [dispatch run meta hs ?ev2] =>
          destruct (IH ev2) as [rest Hr];
          destruct (dispatch run meta hs ev2) as [calls res] eqn:Hd;
          simpl in *; exists rest; by rewrite Hr
      end.
Qed.

(** C1: for every published event, the dispatch set (exact, strict dotted
    prefix and regex matches, merged) is invoked in an order that is a
    prefix of the collected list; that list orders its handlers by
    descending priority, then ascending handler name, is a permutation of
    the merged dispatch set, and keeps entries with equal keys in their
    merged order (stable sort). *)
Theorem publish_priority_order (b : bus) (ev : event) :
  let hs := collect_handlers re_match b (ev_type ev) in
  let merged := merged_handlers re_match b (ev_type ev) in
  (exists rest, hs = map fst (fst (publish re_match run b ev)) ++ rest) /\
  (forall i j x y, (i < j)%nat -> hs !! i = Some x -> hs !! j = Some y ->
     e_priority y < e_priority x \/
     (e_priority x = e_priority y /\ String.le (name_of x) (name_of y))) /\
  Permutation hs merged /\
  (forall p n, List.filter (same_key p n) hs = List.filter (same_key p n) merged).
Proof.
  intros hs merged. split; [|split; [|split]].
  - unfold publish. fold hs.
    destruct (dispatch_prefix (handler_meta b) hs ev) as [rest Hr].
    destruct (dispatch run (handler_meta b) hs ev) as [calls res].
    by exists rest.
  - intros i j x y Hij Hx Hy. apply key_le_spec.
    exact (strongly_sorted_lookup _ _ i j x y (sort_by_key_sorted _) Hij Hx Hy).
  - apply sort_by_key_perm.
  - intros p n. apply filter_sort_by_key.
Qed.

End Dispatch.

End EventBusOrder.

(* ------------------------------------------------------------------ *)
(** ** Event bus: the dotted-prefix rule *)
(* ------------------------------------------------------------------ *)

Module EventBusPrefix.
Import PyStr EventBus.

Lemma str_app_assoc (a b c : string) :
  (a ++ (b ++ c))%string = ((a ++ b) ++ c)%string.
Proof. induction a as [|x a IH]; simpl; congruence. Qed.

Lemma split_dot_nonempty s : split_dot s <> [].
Proof.
  destruct s as [|c s]; simpl; [done|].
  destruct (Ascii.eqb c "."%char); [done|]. by destruct (split_dot s).
Qed.

Lemma join_dot_cons w ws :
  ws <> [] -> join_dot (w :: ws) = (w ++ "." ++ join_dot ws)%string.
Proof. destruct ws; [done|reflexivity]. Qed.

Lemma join_split_dot s : join_dot (split_dot s) = s.
Proof.
  induction s as [|c s IH]; simpl; [done|].
  destruct (Ascii.eqb c "."%char) eqn:Ec.
  - apply Ascii.eqb_eq in Ec as ->.
    rewrite join_dot_cons by apply split_dot_nonempty. simpl. by rewrite IH.
  - destruct (split_dot s) as [|w ws] eqn:Hs; [by destruct (split_dot_nonempty s)|].
    destruct ws as [|w' ws].
    + simpl in *. by rewrite IH.
    + rewrite join_dot_cons by done. rewrite join_dot_cons in IH by done.
      rewrite <- IH. reflexivity.
Qed.

Lemma split_dot_app s r :
  split_dot (s ++ String "."%char r)%string = split_dot s ++ split_dot r.
Proof.
  induction s as [|c s IH]; simpl; [done|].
  destruct (Ascii.eqb c "."%char) eqn:Ec.
  - by rewrite IH.
  - rewrite IH. destruct (split_dot s) as [|w ws] eqn:Hs;
      [by destruct (split_dot_nonempty s)|]. done.
Qed.

Lemma join_dot_app a c :
  a <> [] -> c <> [] -> join_dot (a ++ c) = (join_dot a ++ "." ++ join_dot c)%string.
Proof.
  intros Ha Hc. induction a as [|x a IH]; [done|].
  destruct a as [|y a].
  - simpl. by apply join_dot_cons.
  - rewrite <- app_comm_cons. rewrite join_dot_cons by done.
    rewrite join_dot_cons by done. rewrite IH by done.
    rewrite !str_app_assoc. reflexivity.
Qed.

(** A string is one of the dotted prefixes collected for [t] exactly when
    [t] starts with it followed by a dot. *)
Lemma dotted_prefixes_spec s t :
  In s (dotted_prefixes t) <-> exists rest, t = (s ++ "." ++ rest)%string.
Proof.
  unfold dotted_prefixes. rewrite in_map_iff. split.
  - intros (i & <- & Hi). set (parts := split_dot t) in *.
    rewrite <- in_rev, in_seq in Hi.
    assert (Hlen : (length parts = Nat.pred (length parts) + 1)%nat).
    { pose proof (split_dot_nonempty t). destruct (split_dot t); simpl in *; [done|lia]. }
    exists (join_dot (skipn i parts)).
    rewrite <- join_dot_app.
    + rewrite take_drop. symmetry. apply join_split_dot.
    + intros E. apply (f_equal length) in E. rewrite length_firstn in E. simpl in E.
      destruct (Nat.min_spec i (length parts)) as [[? ?]|[? ?]]; lia.
    + intros E. apply (f_equal length) in E. rewrite length_skipn in E. simpl in E. lia.
  - intros [rest ->]. exists (length (split_dot s)).
    change ("." ++ rest)%string with (String "."%char rest).
    rewrite split_dot_app. split.
    + rewrite firstn_app, Nat.sub_diag, firstn_all. simpl.
      rewrite app_nil_r. apply join_split_dot.
    + rewrite <- in_rev, in_seq. rewrite length_app.
      pose proof (split_dot_nonempty s). pose proof (split_dot_nonempty rest).
      destruct (split_dot s), (split_dot rest); simpl in *; try done; lia.
Qed.

(** [uuid.uuid4()] is fresh: no stored subscription carries [hid]. *)
Definition hid_fresh (b : bus) (hid : nat) : Prop :=
  (forall k l e, exact b !! k = Some l -> In e l -> e_hid e <> hid) /\
  (forall e, In e (regex b) -> e_hid e <> hid).

Definition has_hid (hid : nat) (l : list entry) : Prop :=
  exists e, In e l /\ e_hid e = hid.

Lemma has_hid_sort hid l : has_hid hid (sort_by_key l) <-> has_hid hid l.
Proof.
  unfold has_hid. pose proof (sort_by_key_perm' := EventBusOrder.sort_by_key_perm l).
  split; intros (e & He & Hh); exists e; split; try done.
  - by apply (Permutation_in _ sort_by_key_perm').
  - by apply (Permutation_in _ (Permutation_sym sort_by_key_perm')).
Qed.

Section Prefix.
Variable re_compiles : string -> bool.
Variable re_match : string -> string -> bool.

Lemma subscribe_exact_bucket b b' s h prio tmo plugin hid k :
  startswith "re:" s = false -> hid_fresh b hid ->
  subscribe re_compiles b s h prio tmo plugin hid = Some b' ->
  (has_hid hid (bucket b' k) <-> k = s) /\ regex b' = regex b.
Proof.
  intros Hre [Hex Hrx] Hs. unfold subscribe in Hs. rewrite Hre in Hs.
  injection Hs as <-. split; [|done]. unfold bucket at 1; simpl.
  destruct (decide (k = s)) as [->|Hne].
  - rewrite lookup_insert_eq. simpl. split; [done|]. intros _.
    apply has_hid_sort. eexists. split; [apply in_or_app; right; by left|done].
  - rewrite lookup_insert_ne by congruence. split; [|done].
    unfold bucket. intros (e & He & Hh).
    destruct (exact b !! k) as [l|] eqn:Hk; simpl in He; [|done].
    by destruct (Hex k l e Hk He).
Qed.

(** C2: a handler subscribed to the exact (non-[re:]) type [s] is in the
    dispatch set of an event of type [t] if and only if [t] is [s] or
    starts with [s ++ "."]. The subscription is identified by its fresh
    handler id, so a regex subscription of the same callable does not
    count. *)
Theorem exact_subscription_prefix_rule b b' s t h prio tmo plugin hid :
  startswith "re:" s = false ->
  hid_fresh b hid ->
  subscribe re_compiles b s h prio tmo plugin hid = Some b' ->
  has_hid hid (collect_handlers re_match b' t)
  <-> t = s \/ exists rest, t = (s ++ "." ++ rest)%string.
Proof.
  intros Hre Hf Hs.
  pose proof (fun k => subscribe_exact_bucket b b' s h prio tmo plugin hid k Hre Hf Hs) as Hb.
  unfold collect_handlers. rewrite has_hid_sort. unfold merged_handlers.
  rewrite <- dotted_prefixes_spec. split.
  - intros (e & He & Hh). apply in_app_or in He as [He|He].
    + left. apply (Hb t). by exists e.
    + apply in_app_or in He as [He|He].
      * right. apply in_flat_map in He as (k & Hk & He).
        assert (k = s) as <- by (apply (Hb k); by exists e). done.
      * exfalso. apply filter_In in He as [He _].
        destruct (Hb t) as [_ Hr]. rewrite Hr in He.
        destruct Hf as [_ Hf]. by apply (Hf e).
  - intros [->|Hin].
    + destruct (proj2 (proj1 (Hb s)) eq_refl) as (e & He & Hh).
      exists e. split; [apply in_or_app; by left|done].
    + destruct (proj2 (proj1 (Hb s)) eq_refl) as (e & He & Hh).
      exists e. split; [|done]. apply in_or_app. right. apply in_or_app. left.
      apply in_flat_map. by exists s.
Qed.

End Prefix.

(** Concrete buses: three subscriptions as in scenario 2 of the spec. *)
Definition hA := mkHandler "handler_a" 1.
Definition hB := mkHandler "handler_b" 2.
Definition hC := mkHandler "handler_c" 3.
Definition bus0 := mkBus ∅ [] 120 ∅.
Definition re_all (_ : string) : bool := true.
Definition re_ncatbot (_ t : string) : bool := startswith "ncatbot." t.

Definition bus1 : bus :=
  default bus0 (subscribe re_all bus0 "ncatbot.notice_event" hA 0 None None 1).
Definition bus3 : bus :=
  let b2 := default bus1 (subscribe re_all bus1 "re:ncatbot\..*" hB 5 None None 2) in
  default b2 (subscribe re_all b2 "ncatbot.notice_event.group_increase" hC 10 None None 3).

Example collect_scenario_notice :
  map (fun e => h_name (e_handler e)) (collect_handlers re_ncatbot bus3 "ncatbot.notice_event")
  = ["handler_b"; "handler_a"].
Proof. vm_compute. reflexivity. Qed.

Example collect_scenario_increase :
  map (fun e => h_name (e_handler e))
      (collect_handlers re_ncatbot bus3 "ncatbot.notice_event.group_increase")
  = ["handler_c"; "handler_b"; "handler_a"].
Proof. vm_compute. reflexivity. Qed.

Lemma exact_subscription_prefix_rule_witness :
  startswith "re:" "ncatbot.notice_event" = false /\
  hid_fresh bus0 1 /\
  subscribe re_all bus0 "ncatbot.notice_event" hA 0 None None 1 = Some bus1 /\
  (has_hid 1 (collect_handlers (fun _ _ => false) bus1 "ncatbot.notice_event.poke")
   <-> "ncatbot.notice_event.poke" = "ncatbot.notice_event"
       \/ exists rest, "ncatbot.notice_event.poke" = ("ncatbot.notice_event" ++ "." ++ rest)%string).
Proof.
  assert (Hf : hid_fresh bus0 1).
  { split; simpl; [intros k l e Hk; by rewrite lookup_empty in Hk | done]. }
  assert (Hs : subscribe re_all bus0 "ncatbot.notice_event" hA 0 None None 1 = Some bus1).
  { vm_compute. reflexivity. }
  split; [reflexivity|]. split; [exact Hf|]. split; [exact Hs|].
  apply (exact_subscription_prefix_rule re_all (fun _ _ => false) bus0 bus1
           "ncatbot.notice_event" "ncatbot.notice_event.poke" hA 0 None None 1);
    [reflexivity | exact Hf | exact Hs].
Defined.

End EventBusPrefix.

(* ------------------------------------------------------------------ *)
(** ** Event bus: exception isolation in [publish] *)
(* ------------------------------------------------------------------ *)

Module EventBusIsolation.
Import PyStr EventBus EventBusOrder.

(** The values appended to [event._results] by the invoked handlers. *)
Definition successes (calls : list (entry * outcome)) : list nat :=
  flat_map (fun c => match snd c with Returned v => [v] | _ => [] end) calls.

(** The entries appended to [event._exceptions] by one invoked handler. *)
Definition recorded_of (meta : gmap nat string) (c : entry * outcome) : list recorded :=
  let e := fst c in
  let timeout_rec := RecTimeout (default "Unknown" (meta !! e_hid e))
                                (h_name (e_handler e)) (e_timeout e) in
  match snd c with
  | Returned _ => []
  | Exceeded => [timeout_rec]
  | Threw x =>
      match exc_cls x with
      | ExcAsyncioTimeout => [timeout_rec]
      | ExcOther => [RecExc x]
      | ExcBase => []
      end
  end.

Section Isolation.
Variable run : entry -> event -> outcome * bool.

Lemma dispatch_spec meta hs ev calls res :
  dispatch run meta hs ev = (calls, res) ->
  map fst calls = firstn (length calls) hs /\
  match res with
  | inl ev' =>
      ev_results ev' = ev_results ev ++ successes calls /\
      ev_exceptions ev' = ev_exceptions ev ++ flat_map (recorded_of meta) calls /\
      ((length calls < length hs)%nat -> ev_stopped ev' = true)
  | inr x => exc_cls x = ExcBase
  end.
Proof.
  revert ev calls res. induction hs as [|e hs IH]; intros ev calls res Hd; simpl in Hd.
  - injection Hd as <- <-. simpl. rewrite !app_nil_r.
    split; [done|]. split; [done|]. split; [done|]. lia.
  - destruct (ev_stopped ev) eqn:Hst.
    { injection Hd as <- <-. simpl. rewrite !app_nil_r.
      split; [done|]. split; [done|]. split; done. }
    destruct (run e ev) as [o stop].
    destruct o as [v|x|]; [| destruct (exc_cls x) eqn:Hx |];
      try (injection Hd as <- <-; simpl; split; [done|exact Hx]);
      match type of Hd with
      | (let '(_, _) := dispatch run meta hs ?ev2 in _) = _ =>
          destruct (dispatch run meta hs ev2) as [calls' res'] eqn:Hd';
          injection Hd as <- <-;
          destruct (IH _ _ _ Hd') as [Hpre Hres];
          split; [simpl; by rewrite Hpre|];
          destruct res' as [ev'|x']; [|exact Hres];
          destruct Hres as (Hr & He & Hs);
          simpl in Hr, He |- *; rewrite Hr, He;
          unfold recorded_of; simpl; try rewrite Hx; rewrite <- !app_assoc;
          split; [done|split; [done|intros; apply Hs; lia]]
      end.
Qed.

Variable re_match : string -> string -> bool.

(** Isolation in [publish]: it invokes a prefix of the dispatch set and stops
    early only when propagation is stopped. A handler that raises an
    [Exception] other than [asyncio.TimeoutError] has that exception
    appended to [event._exceptions] and dispatch goes on; a handler that
    overruns its timeout, or raises [asyncio.TimeoutError] itself, adds a
    [HandlerTimeoutError]. When [publish] returns, its result is the
    event's prior results followed by one value per handler that returned,
    in handler order; only a [BaseException] outside [Exception] escapes. *)
Theorem publish_exception_isolation (b : bus) (ev : event) :
  let hs := collect_handlers re_match b (ev_type ev) in
  let '(calls, res) := publish re_match run b ev in
  map fst calls = firstn (length calls) hs /\
  match res with
  | inl (results, ev') =>
      results = ev_results ev ++ successes calls /\
      ev_exceptions ev' = ev_exceptions ev ++ flat_map (recorded_of (handler_meta b)) calls /\
      ((length calls < length hs)%nat -> ev_stopped ev' = true)
  | inr x => exc_cls x = ExcBase
  end.
Proof.
  intros hs. unfold publish. fold hs.
  destruct (dispatch run (handler_meta b) hs ev) as [calls res] eqn:Hd.
  destruct (dispatch_spec _ _ _ _ _ Hd) as [Hpre Hres].
  split; [done|]. by destruct res.
Qed.

End Isolation.

(** A bus with two handlers on [ncatbot.message_event]: [handler_a]
    (priority 1) raises [asyncio.TimeoutError] from its own code, well
    within its 120 s budget; [handler_b] (priority 0) returns 7. *)
Definition iso_bus : bus :=
  let b1 := default EventBusPrefix.bus0
              (subscribe EventBusPrefix.re_all EventBusPrefix.bus0
                 "ncatbot.message_event" EventBusPrefix.hA 1 None None 1) in
  default b1 (subscribe EventBusPrefix.re_all b1 "ncatbot.message_event"
                EventBusPrefix.hB 0 None None 2).

Definition handler_timeout_exc := mkExc ExcAsyncioTimeout 42.

Definition iso_run (e : entry) (_ : event) : outcome * bool :=
  if Nat.eqb (e_hid e) 1 then (Threw handler_timeout_exc, false) else (Returned 7, false).

Definition fresh_message_event := mkEvent "ncatbot.message_event" [] [] false.

(** C3: the [except asyncio.TimeoutError] clause also catches the
    [TimeoutError] [handler_a] raised itself, so that exception is not what
    is appended; a [HandlerTimeoutError] is recorded in its place. *)
Lemma publish_handler_timeout_error_replaced :
  match snd (publish (fun _ _ => false) iso_run iso_bus fresh_message_event) with
  | inl (results, ev') =>
      results = [7%nat] /\
      ev_exceptions ev' = [RecTimeout "Unknown" "handler_a" 120] /\
      ~ In (RecExc handler_timeout_exc) (ev_exceptions ev')
  | inr _ => False
  end.
Proof.
  vm_compute. split; [reflexivity|]. split; [reflexivity|].
  intros [H|H]; [discriminate|done].
Qed.

End EventBusIsolation.

(* ------------------------------------------------------------------ *)
(** ** Event parser: unknown variants and identifier normalisation *)
(* ------------------------------------------------------------------ *)

Module EventParserFacts.
Import EventParser.

Definition field_value (e : parsed) (k : string) : option out :=
  option_map snd (List.find (fun p => String.eqb p.1 k) (p_fields e)).

Definition parsed_field (data : payload) (k : string) : option out :=
  match parse data with
  | Parsed e => field_value e k
  | RaiseValueError _ | RaiseTypeError => None
  end.

(** A group message with integer identifiers. *)
Definition group_msg : payload :=
  list_to_map [("post_type", JStr "message"); ("message_type", JStr "group");
               ("time", JInt 1700000000); ("self_id", JInt 10001);
               ("message_id", JInt 55); ("user_id", JInt 12345);
               ("group_id", JInt 777); ("message", JComp true "[...]");
               ("raw_message", JStr "hi"); ("sender", JComp true "{...}")].

Example group_msg_ids :
  parsed_field group_msg "user_id" = Some (OStr "12345") /\
  parsed_field group_msg "group_id" = Some (OStr "777") /\
  parsed_field group_msg "self_id" = Some (OStr "10001").
Proof. vm_compute. repeat split. Qed.

(** A notice whose (post_type, sub_key) pair has no registered variant. *)
Definition essence_notice : payload :=
  list_to_map [("post_type", JStr "notice"); ("notice_type", JStr "essence");
               ("time", JInt 1700000000); ("self_id", JInt 10001)].

(** C4 (amended): for a payload with a truthy [post_type] whose
    (post_type, sub_key) pair has no registered variant, [parse] produces
    no event: it raises [ValueError("Unknown event type: ...")] when the
    [post_type] is a string, a number or a boolean, and [TypeError] at the
    registry lookup when it is a list or a dict. *)
Theorem parse_unknown_variant_raises (data : payload) (pt : jval) :
  data !! "post_type" = Some pt ->
  truthy pt = true ->
  lookup_variant pt (get_secondary_key data) = None ->
  parse data = if hashable pt
               then RaiseValueError ("Unknown event type: " ++ py_str pt ++ " -> "
                                     ++ get_secondary_key data)%string
               else RaiseTypeError.
Proof.
  intros Hpt Htr Hlk. unfold parse. rewrite Hpt, Htr. simpl.
  destruct (hashable pt); simpl; [by rewrite Hlk|done].
Qed.

Lemma parse_unknown_variant_raises_witness :
  (essence_notice !! "post_type" = Some (JStr "notice") /\
   truthy (JStr "notice") = true /\
   lookup_variant (JStr "notice") (get_secondary_key essence_notice) = None) /\
  parse essence_notice = RaiseValueError ("Unknown event type: " ++ py_str (JStr "notice")
                                          ++ " -> " ++ get_secondary_key essence_notice)%string.
Proof.
  split; [split; [vm_compute; reflexivity|split; vm_compute; reflexivity]|].
  apply (parse_unknown_variant_raises essence_notice (JStr "notice"));
    vm_compute; reflexivity.
Defined.

(** C4 as stated fails: on an unknown notice type [parse] raises. *)
Lemma parse_essence_notice_raises :
  parse essence_notice = RaiseValueError "Unknown event type: notice -> essence".
Proof. vm_compute. reflexivity. Qed.

(** A [friend_add] notice from a gateway that sends [user_id] as the
    integer 0. *)
Definition friend_add_zero : payload :=
  list_to_map [("post_type", JStr "notice"); ("notice_type", JStr "friend_add");
               ("time", JInt 1700000000); ("self_id", JInt 10001);
               ("user_id", JInt 0)].

(** C6: the payload is accepted, but [NoticeEvent._ids] maps the integer
    [0] to [None] instead of ["0"]. *)
Lemma friend_add_zero_user_id_dropped :
  friend_add_zero !! "user_id" = Some (JInt 0) /\
  (exists e, parse friend_add_zero = Parsed e /\ p_cls e = FriendAddNoticeEvent) /\
  parsed_field friend_add_zero "user_id" = Some ONone /\
  parsed_field friend_add_zero "user_id" <> Some (OStr (z_to_str 0)).
Proof.
  split; [vm_compute; reflexivity|]. split.
  - eexists. split; [vm_compute; reflexivity|reflexivity].
  - vm_compute. split; [reflexivity|discriminate].
Qed.

(** The identifier fields the parser is meant to carry as strings. *)
Definition id_fields : list string :=
  ["user_id"; "group_id"; "message_id"; "operator_id"; "target_id"; "self_id"].

(** The [post_type] under which each variant is registered. *)
Definition cls_post_type (c : event_cls) : string :=
  match c with
  | PrivateMessageEvent | GroupMessageEvent => "message"
  | FriendRequestEvent | GroupRequestEvent => "request"
  | LifecycleMetaEvent | HeartbeatMetaEvent => "meta_event"
  | _ => "notice"
  end.

Lemma registry_get_in r k c :
  registry_get r k = Some c -> exists k', In (k', c) r /\ k'.1 = k.1.
Proof.
  induction r as [|[k' c'] r IH]; simpl; [done|].
  destruct (String.eqb k.1 k'.1 && String.eqb k.2 k'.2) eqn:E.
  - intros [= <-]. apply andb_true_iff in E as [E _]. apply String.eqb_eq in E.
    exists k'. split; [by left|done].
  - intros H. destruct (IH H) as (k'' & Hin & Hk). exists k''. split; [by right|done].
Qed.

Lemma builtin_registry_post_types :
  forallb (fun '(k, c) => String.eqb k.1 (cls_post_type c)) builtin_registry = true.
Proof. vm_compute. reflexivity. Qed.

Lemma lookup_variant_post_type pt sk c :
  lookup_variant pt sk = Some c -> pt = JStr (cls_post_type c).
Proof.
  destruct pt as [| p | | |]; unfold lookup_variant; try discriminate.
  intros H. apply registry_get_in in H as ([p' s'] & Hin & Hk). simpl in Hk. subst p'.
  pose proof builtin_registry_post_types as Hall. rewrite forallb_forall in Hall.
  specialize (Hall _ Hin). simpl in Hall. apply String.eqb_eq in Hall. by subst.
Qed.

Lemma parse_parsed data e :
  parse data = Parsed e ->
  exists pt, data !! "post_type" = Some pt /\
    lookup_variant pt (get_secondary_key data) = Some (p_cls e) /\
    validate_fields (fields_of (p_cls e)) data = Some (p_fields e).
Proof.
  unfold parse. destruct (data !! "post_type") as [pt|] eqn:Ep; [|discriminate].
  destruct (truthy pt); simpl; [|discriminate].
  destruct (hashable pt); simpl; [|discriminate].
  destruct (lookup_variant pt (get_secondary_key data)) as [c|] eqn:El; [|discriminate].
  destruct (validate_fields (fields_of c) data) as [fs|] eqn:Ev; [|discriminate].
  intros [= <-]. exists pt. split; [done|]. split; done.
Qed.

Lemma validate_fields_find fl data outs k o :
  validate_fields fl data = Some outs ->
  option_map snd (List.find (fun p => String.eqb p.1 k) outs) = Some o ->
  exists f, In f fl /\ f_name f = k /\ validate_field f data = Some o.
Proof.
  revert outs. induction fl as [|f fl IH]; intros outs; simpl.
  - intros [= <-]. discriminate.
  - destruct (validate_field f data) as [o1|] eqn:E1; [|discriminate].
    destruct (validate_fields fl data) as [rest|] eqn:Er; [|discriminate].
    intros [= <-]. simpl. destruct (String.eqb (f_name f) k) eqn:Ek.
    + simpl. intros [= <-]. apply String.eqb_eq in Ek. exists f. by split; [left|].
    + intros H. destruct (IH rest eq_refl H) as (f' & Hin & Hn & Hv).
      exists f'. split; [by right|done].
Qed.

(** How an identifier field may be declared: with a [str(v)] validator,
    with [NoticeEvent._ids] on a notice's [group_id] or [user_id], or
    as [Optional[str]] with no validator (an integer is then refused). *)
Definition id_decl_ok (c : event_cls) (f : field) : bool :=
  if existsb (String.eqb (f_name f)) id_fields then
    match f_validator f, f_kind f with
    | VStr, (KStr | KOptStr) =>
        negb (String.eqb (cls_post_type c) "notice" &&
              (String.eqb (f_name f) "user_id" || String.eqb (f_name f) "group_id"))
    | VStrIfTruthy, KOptStr =>
        String.eqb (cls_post_type c) "notice" &&
        (String.eqb (f_name f) "user_id" || String.eqb (f_name f) "group_id")
    | VNone, KOptStr => true
    | _, _ => false
    end
  else true.

Lemma fields_of_ids_ok c : forallb (id_decl_ok c) (fields_of c) = true.
Proof. destruct c; vm_compute; reflexivity. Qed.

Lemma notice_match c :
  match cls_post_type c with "notice" => true | _ => false end =
  String.eqb (cls_post_type c) "notice".
Proof. by destruct c. Qed.

(** C6 (amended): on every event [parse] returns, an identifier field
    the variant declares that arrived as the integer [z] carries [str(z)],
    except the [group_id] and [user_id] of a notice event, which carry
    [None] when [z] is [0] ([NoticeEvent._ids] is [str(v) if v else
    None]). *)
Theorem parse_ids_to_string (data : payload) (e : parsed) (k : string) (z : Z) :
  parse data = Parsed e ->
  In k id_fields ->
  data !! k = Some (JInt z) ->
  field_value e k <> None ->
  field_value e k =
    Some (if (z =? 0) && (String.eqb k "user_id" || String.eqb k "group_id") &&
             match data !! "post_type" with Some (JStr "notice") => true | _ => false end
          then ONone else OStr (z_to_str z)).
Proof.
  intros Hp Hk Hz Hne.
  destruct (parse_parsed data e Hp) as (pt & Hpt & Hlk & Hv).
  apply lookup_variant_post_type in Hlk. subst pt. rewrite Hpt.
  destruct (field_value e k) as [o|] eqn:Ho; [|done]. clear Hne.
  destruct (validate_fields_find _ _ _ _ _ Hv Ho) as (f & Hin & Hn & Hf).
  pose proof (fields_of_ids_ok (p_cls e)) as Hall. rewrite forallb_forall in Hall.
  specialize (Hall f Hin). unfold id_decl_ok in Hall.
  assert (Hid : existsb (String.eqb (f_name f)) id_fields = true).
  { apply existsb_exists. exists k. split; [done|]. rewrite Hn. apply String.eqb_refl. }
  rewrite Hid in Hall.
  unfold validate_field in Hf. rewrite Hn, Hz in Hf. rewrite Hn in Hall.
  rewrite notice_match.
  destruct (f_validator f), (f_kind f); simpl in Hf, Hall; try discriminate Hf; try discriminate Hall.
  all: destruct (z =? 0), (String.eqb (cls_post_type (p_cls e)) "notice"),
         (String.eqb k "user_id" || String.eqb k "group_id");
       simpl in Hf, Hall |- *; solve [injection Hf as <-; reflexivity | discriminate Hall].
Qed.

Lemma parse_ids_to_string_witness :
  exists e, parse friend_add_zero = Parsed e /\
    field_value e "user_id" = Some ONone /\
    field_value e "self_id" = Some (OStr "10001").
Proof.
  set (e := match parse friend_add_zero with
            | Parsed e => e
            | _ => mkParsed FriendAddNoticeEvent [] end).
  assert (Hp : parse friend_add_zero = Parsed e) by (vm_compute; reflexivity).
  exists e. split; [exact Hp|]. split.
  - rewrite (parse_ids_to_string friend_add_zero e "user_id" 0 Hp).
    + vm_compute. reflexivity.
    + simpl. tauto.
    + vm_compute. reflexivity.
    + vm_compute. discriminate.
  - rewrite (parse_ids_to_string friend_add_zero e "self_id" 10001 Hp).
    + vm_compute. reflexivity.
    + simpl. tauto.
    + vm_compute. reflexivity.
    + vm_compute. discriminate.
Defined.

End EventParserFacts.

(* ------------------------------------------------------------------ *)
(** ** Service manager: load and close order *)
(* ------------------------------------------------------------------ *)

Module ServiceManagerOrder.
Import ServiceManager.

Lemma mem_spec n l : mem n l = true <-> In n l.
Proof.
  unfold mem. rewrite existsb_exists. split.
  - intros (x & Hx & E). apply String.eqb_eq in E. by subst.
  - intros H. exists n. split; [done|]. apply String.eqb_refl.
Qed.

Lemma mem_false n l : mem n l = false <-> ~ In n l.
Proof.
  rewrite <- mem_spec. destruct (mem n l); split; intros H; done.
Qed.

Lemma filter_neq_notin n l :
  ~ In n l -> List.filter (fun x => negb (String.eqb x n)) l = l.
Proof.
  induction l as [|x l IH]; intros Hn; simpl; [done|].
  destruct (String.eqb x n) eqn:E.
  - apply String.eqb_eq in E. subst. destruct Hn. by left.
  - simpl. rewrite IH; [done|]. intros H. apply Hn. by right.
Qed.

Section Order.
Variable construct_ok : string -> bool.
Variable load_ok : string -> bool.
Variable close_ok : string -> bool.







End Order.

Definition two_services : manager :=
  register "preupload" (register "websocket" (mkManager [] [])).

Definition fail_preupload (n : string) : bool := negb (String.eqb n "preupload").



End ServiceManagerOrder.

(* ------------------------------------------------------------------ *)
(** ** Plugin import: rollback on a failing entry module *)
(* ------------------------------------------------------------------ *)

Module ImporterRollback.
Import Importer.

Lemma append_nonempty_neq (a b : string) : b <> EmptyString -> a <> (a ++ b)%string.
Proof.
  intros Hb. induction a as [|c a IH]; simpl; intros E.
  - by apply Hb.
  - apply IH. congruence.
Qed.

Lemma pkg_neq_module san stem : plugin_pkg_name san <> plugin_main_module_name san stem.
Proof. unfold plugin_main_module_name. apply append_nonempty_neq. discriminate. Qed.

(** [finally: sys.path = original_sys_path]: whatever happens, the
    module search path is the one the call started with. *)
Lemma load_plugin_module_restores_sys_path spec_ok exec_module p san stem s :
  sys_path (fst (load_plugin_module spec_ok exec_module p san stem s)) = sys_path s.
Proof.
  unfold load_plugin_module. simpl.
  destruct (sys_modules s !! plugin_pkg_name san); simpl; destruct spec_ok; simpl;
    try reflexivity;
    match goal with |- context [exec_module ?x] => destruct (exec_module x) as [s4 []] end;
    reflexivity.
Qed.

(** When neither the package nor the entry module was registered and the
    entry module raises without registering anything itself, the
    rollback restores [sys.modules] exactly. *)
Lemma load_plugin_module_fresh_rollback exec_module p san stem s :
  (forall s0, exec_module s0 = (s0, false)) ->
  sys_modules s !! plugin_pkg_name san = None ->
  sys_modules s !! plugin_main_module_name san stem = None ->
  fst (load_plugin_module true exec_module p san stem s) = s.
Proof.
  intros Hexec Hpkg Hmod. unfold load_plugin_module. simpl. rewrite Hpkg. simpl.
  rewrite Hexec. simpl. destruct s as [m sp]. simpl in *. f_equal.
  rewrite delete_insert_eq, delete_insert_ne by (apply not_eq_sym, pkg_neq_module).
  rewrite (delete_id _ (plugin_main_module_name san stem)) by done.
  rewrite delete_insert_eq. by apply delete_id.
Qed.

Definition demo_state : sys_state :=
  mkSys {[ plugin_pkg_name "demo" := MPkg "/plugins/demo";
           plugin_main_module_name "demo" "main" := MOther 1 ]}
        ["/usr/lib/python3"].

Definition exec_raises (s : sys_state) : sys_state * bool := (s, false).

(** C7 (code bug): [created_module] is set unconditionally, so when
    [sys.modules] already held an entry under the entry module's name
    and executing the entry module fails, the rollback pops that
    pre-existing entry too; only [sys.path] comes back intact. *)
Theorem load_plugin_module_drops_preexisting_entry :
  let '(s', r) := load_plugin_module true exec_raises "/plugins/demo" "demo" "main" demo_state in
  r = RaisedExecError /\
  sys_path s' = sys_path demo_state /\
  sys_modules demo_state !! plugin_main_module_name "demo" "main" = Some (MOther 1) /\
  sys_modules s' !! plugin_main_module_name "demo" "main" = None /\
  sys_modules s' !! plugin_pkg_name "demo" = Some (MPkg "/plugins/demo").
Proof. vm_compute. repeat split. Qed.

End ImporterRollback.

(* ------------------------------------------------------------------ *)
(** ** File watcher: pause, debounce and the pending set *)
(* ------------------------------------------------------------------ *)

Module FileWatcherFacts.
Import FileWatcher.

Lemma fold_left_invariant {A} (f : fw -> A -> fw) (P : fw -> Prop) l st :
  (forall st a, P st -> P (f st a)) -> P st -> P (fold_left f l st).
Proof. intros Hf. revert st. induction l as [|a l IH]; intros st H; simpl; auto. Qed.

Lemma fold_left_commute {A} (f : fw -> A -> fw) (g : fw -> fw) l st :
  (forall st a, f (g st) a = g (f st a)) -> fold_left f l (g st) = g (fold_left f l st).
Proof.
  intros Hc. revert st. induction l as [|a l IH]; intros st; simpl; [done|].
  by rewrite Hc, IH.
Qed.

(** Scanning never removes a pending directory. *)
Lemma on_file_changed_pending debug fp pd st :
  pending_dirs st ⊆ pending_dirs (on_file_changed debug fp pd st).
Proof.
  unfold on_file_changed. destruct debug; simpl; [|done].
  destruct (relpath_parts fp pd) as [|x [|y r]]; simpl; set_solver.
Qed.

Lemma scan_files_pending debug fs d st :
  pending_dirs st ⊆ pending_dirs (scan_files debug fs d st).
Proof.
  unfold scan_files. simpl.
  set (X := pending_dirs st).
  apply (fold_left_invariant _ (fun st' => X ⊆ pending_dirs st')).
  - intros st' f HX. unfold drop_one. simpl.
    destruct (first_scan_done st'); [|done].
    etrans; [apply HX|]. apply (on_file_changed_pending _ _ _ (with_cache _ st')).
  - apply (fold_left_invariant _ (fun st' => X ⊆ pending_dirs st')); [|done].
    intros st' [fp mt] HX. unfold scan_one.
    destruct (contains _ _); [done|].
    destruct (file_cache st' !! fp) as [old|]; simpl.
    + destruct (Z.eqb old mt); [done|].
      etrans; [apply HX|]. apply (on_file_changed_pending _ _ _ (with_cache _ st')).
    + destruct (first_scan_done st'); [|done].
      etrans; [apply HX|]. apply (on_file_changed_pending _ _ _ (with_cache _ st')).
Qed.

Lemma scan_all_pending debug fs st :
  pending_dirs st ⊆ pending_dirs (scan_all debug fs st).
Proof.
  unfold scan_all. set (X := pending_dirs st).
  apply (fold_left_invariant _ (fun st' => X ⊆ pending_dirs st')); [|done].
  intros st' d HX. destruct (dir_exists fs d); [|done].
  etrans; [apply HX|]. apply scan_files_pending.
Qed.

(** Scanning does not look at, nor change, the pause gate. *)
Lemma on_file_changed_with_paused debug fp pd b st :
  on_file_changed debug fp pd (with_paused b st) = with_paused b (on_file_changed debug fp pd st).
Proof.
  destruct st. unfold on_file_changed. destruct debug; simpl; [|done].
  by destruct (relpath_parts fp pd) as [|x [|y r]].
Qed.

Lemma first_scan_done_with_paused b st : first_scan_done (with_paused b st) = first_scan_done st.
Proof. done. Qed.

Lemma first_scan_done_with_cache c st : first_scan_done (with_cache c st) = first_scan_done st.
Proof. done. Qed.

Lemma scan_files_with_paused debug fs d b st :
  scan_files debug fs d (with_paused b st) = with_paused b (scan_files debug fs d st).
Proof.
  unfold scan_files.
  rewrite (fold_left_commute _ (with_paused b)).
  - set (st1 := fold_left (scan_one debug d) (rglob_py fs d) st).
    change (file_cache (with_paused b st1)) with (file_cache st1).
    rewrite (fold_left_commute _ (with_paused b)).
    + by destruct (fold_left _ _ st1).
    + intros st' f. unfold drop_one.
      change (with_cache (delete f (file_cache (with_paused b st'))) (with_paused b st'))
        with (with_paused b (with_cache (delete f (file_cache st')) st')).
      rewrite !first_scan_done_with_paused, !first_scan_done_with_cache.
      destruct (first_scan_done st'); [|done]. apply on_file_changed_with_paused.
  - intros st' [fp mt]. unfold scan_one.
    destruct (contains _ _); [done|].
    change (file_cache (with_paused b st')) with (file_cache st').
    change (with_cache (<[fp:=mt]> (file_cache st')) (with_paused b st'))
      with (with_paused b (with_cache (<[fp:=mt]> (file_cache st')) st')).
    destruct (file_cache st' !! fp) as [old|].
    + destruct (Z.eqb old mt); [done|]. apply on_file_changed_with_paused.
    + rewrite !first_scan_done_with_paused, !first_scan_done_with_cache.
      destruct (first_scan_done st'); [|done]. apply on_file_changed_with_paused.
Qed.

Lemma scan_all_with_paused debug fs b st :
  scan_all debug fs (with_paused b st) = with_paused b (scan_all debug fs st).
Proof.
  unfold scan_all. change (watch_dirs (with_paused b st)) with (watch_dirs st).
  apply fold_left_commute. intros st' d.
  destruct (dir_exists fs d); [apply scan_files_with_paused|done].
Qed.

Lemma pause_resume st : paused st = true -> pause (resume st) = st.
Proof. destruct st; simpl; intros ->; done. Qed.

(** C8: while paused, an iteration of the watch loop scans exactly as an
    unpaused one would, the pending set only grows, and no reload
    callback runs; after [resume], once the pending set is non-empty and
    at least [debounce_delay] has passed since the last processing time,
    [_process_pending] hands every pending directory to the callback,
    empties the pending set and records the current time. *)
Theorem pause_accumulates_resume_dispatches :
  (forall debug fs now st,
     paused st = true ->
     iteration debug fs now st = ([], scan_all debug fs st) /\
     scan_all debug fs st = pause (scan_all debug fs (resume st)) /\
     pending_dirs st ⊆ pending_dirs (scan_all debug fs st)) /\
  (forall now st,
     pending_dirs st <> ∅ ->
     debounce_delay st <= now - last_process_time st ->
     has_callback st = true ->
     process_pending now (resume st)
     = (elements (pending_dirs st), with_last now (with_pending ∅ (resume st)))).
Proof.
  split.
  - intros debug fs now st Hp.
    assert (E : scan_all debug fs st = pause (scan_all debug fs (resume st))).
    { rewrite <- (pause_resume st Hp) at 1. apply scan_all_with_paused. }
    split; [|split].
    + unfold iteration. rewrite E. reflexivity.
    + exact E.
    + apply scan_all_pending.
  - intros now st Hne Hdeb Hcb. unfold process_pending. simpl.
    rewrite bool_decide_false by done.
    destruct (Z.ltb_spec (now - last_process_time st) (debounce_delay st)); [lia|].
    by rewrite Hcb.
Qed.

Definition paused_watcher : fw :=
  mkFw ∅ true {[ "demo" ]} 0 true true 1 [["plugins"]].

Lemma pause_accumulates_resume_dispatches_witness :
  paused paused_watcher = true /\
  pending_dirs paused_watcher <> ∅ /\
  debounce_delay paused_watcher <= 5 - last_process_time paused_watcher /\
  has_callback paused_watcher = true /\
  fst (iteration true (mkFs [] [["plugins"]]) 5 paused_watcher) = [] /\
  fst (process_pending 5 (resume paused_watcher)) = ["demo"].
Proof.
  destruct pause_accumulates_resume_dispatches as [Hpause Hresume].
  assert (Hne : pending_dirs paused_watcher <> ∅).
  { simpl. intros E.
    assert (H : "demo" ∈ ({[ "demo" ]} : gset string)) by set_solver.
    rewrite E in H. set_solver. }
  split; [reflexivity|]. split; [exact Hne|]. split; [simpl; lia|].
  split; [reflexivity|]. split.
  - destruct (Hpause true (mkFs [] [["plugins"]]) 5 paused_watcher eq_refl) as [-> _].
    reflexivity.
  - rewrite (Hresume 5 paused_watcher Hne); [|simpl; lia|reflexivity].
    reflexivity.
Defined.

(** Outside debug mode [_on_file_changed] returns at once, so scanning
    leaves the pending set as it was. *)
Lemma scan_all_no_debug fs st :
  pending_dirs (scan_all false fs st) = pending_dirs st.
Proof.
  unfold scan_all. set (X := pending_dirs st).
  apply (fold_left_invariant _ (fun st' => pending_dirs st' = X)); [|done].
  intros st' d HX. destruct (dir_exists fs d); [|done].
  unfold scan_files. simpl.
  apply (fold_left_invariant _ (fun st' => pending_dirs st' = X)).
  - intros st'' f H. unfold drop_one. simpl.
    by destruct (first_scan_done st'').
  - apply (fold_left_invariant _ (fun st' => pending_dirs st' = X)); [|done].
    intros st'' [fp mt] H. unfold scan_one.
    destruct (contains _ _); [done|].
    destruct (file_cache st'' !! fp) as [old|]; simpl.
    + by destruct (Z.eqb old mt).
    + by destruct (first_scan_done st'').
Qed.

Lemma iteration_no_debug fs now st :
  pending_dirs st = ∅ -> fst (iteration false fs now st) = [].
Proof.
  intros H. unfold iteration, process_pending.
  rewrite scan_all_no_debug, H, bool_decide_true by done.
  by destruct (paused _).
Qed.

Lemma common_len_app root f : common_len (root ++ [f]) root = length root.
Proof. induction root as [|x r IH]; simpl; [done|]. by rewrite String.eqb_refl, IH. Qed.

(** With a single watch root, a file directly in it never enqueues. *)
Lemma on_file_changed_root_file debug root f st :
  on_file_changed debug (root ++ [f]) root st = st.
Proof.
  unfold on_file_changed, relpath_parts. rewrite common_len_app, Nat.sub_diag.
  simpl. rewrite drop_app_length. by destruct debug.
Qed.

(** Two watch roots, [/w/b] iterated before [/w/a]; the cache remembers
    [/w/a/f.py], which lies directly in the root [/w/a] and is now gone. *)
Definition two_roots : fw :=
  mkFw {[ ["w"; "a"; "f.py"] := 1 ]} true ∅ 0 false true 1 [["w"; "b"]; ["w"; "a"]].

Definition two_roots_fs : fs_snapshot := mkFs [] [["w"; "b"]; ["w"; "a"]].

(** C9 (code bug): [_scan_files] collects deletions from the whole file
    cache but resolves them against the root being scanned; with the
    debug flag on, the deletion of a file lying directly in one root,
    found while scanning another root, enqueues [".."] and the callback
    is invoked with it. *)
Theorem deleted_root_file_enqueues_parent :
  pending_dirs (scan_all true two_roots_fs two_roots) = {[ ".." ]} /\
  fst (iteration true two_roots_fs 10 two_roots) = [".."].
Proof. split; vm_compute; reflexivity. Qed.

End FileWatcherFacts.

(* ------------------------------------------------------------------ *)
(** ** Plugin configuration: [set] with an [on_change] callback *)
(* ------------------------------------------------------------------ *)

Module PluginConfigFacts.
Import PluginConfig.

Lemma set_old_value (s : service) plugin_name name :
  default PNone
    (default ∅ (match configs s !! plugin_name with
                | Some _ => configs s
                | None => <[plugin_name := ∅]> (configs s)
                end !! plugin_name) !! name)
  = get s plugin_name name PNone.
Proof.
  unfold get. destruct (configs s !! plugin_name) as [pc|] eqn:E.
  - by rewrite E.
  - by rewrite lookup_insert_eq.
Qed.

(** C10: for a registered item whose [parse_value] succeeds with [v],
    [on_change(old, v)] is called exactly when a callback is set and
    [old != v]; if it raises, only a warning is logged; either way the
    call returns [(old, v)], [v] is stored and the dirty flag is set. *)
Theorem set_on_change_then_store parse_value on_change_raises
    (s : service) plugin_name name value it v :
  default ∅ (config_items s !! plugin_name) !! name = Some it ->
  parse_value (ci_value_type it) value = Some v ->
  let old := get s plugin_name name PNone in
  let '(eff, r) := set parse_value on_change_raises plugin_name name value s in
  (forall cb o n, In (OnChange cb o n) eff <->
     ci_on_change it = Some cb /\ py_eq old v = false /\ o = old /\ n = v) /\
  (forall cb, In (Warning cb) eff <->
     ci_on_change it = Some cb /\ py_eq old v = false /\ on_change_raises cb old v = true) /\
  exists s', r = inl (s', (old, v)) /\
    default ∅ (configs s' !! plugin_name) !! name = Some v /\
    dirty s' = true.
Proof.
  intros Hit Hparse old. unfold set. rewrite Hit, Hparse.
  rewrite set_old_value. fold old.
  split; [|split].
  - intros cb o n. destruct (ci_on_change it) as [cb'|]; simpl.
    + destruct (py_eq old v) eqn:Eq; simpl.
      * split; [done|]. intros (_ & ? & _). discriminate.
      * destruct (on_change_raises cb' old v); simpl;
          split; [intros [H|[H|[]]]; try discriminate; injection H; intros; subst; auto| |
                  intros [H|[]]; injection H; intros; subst; auto|];
          intros (Hcb & _ & -> & ->); injection Hcb as ->; auto.
    + split; [done|]. intros ([=] & _).
  - intros cb. destruct (ci_on_change it) as [cb'|]; simpl.
    + destruct (py_eq old v) eqn:Eq; simpl.
      * split; [done|]. intros (_ & ? & _). discriminate.
      * destruct (on_change_raises cb' old v) eqn:Er; simpl.
        -- split.
           ++ intros [H|[H|[]]]; [discriminate|]. injection H as ->. auto.
           ++ intros (Hcb & _ & _). injection Hcb as ->. auto.
        -- split.
           ++ intros [H|[]]. discriminate.
           ++ intros (Hcb & _ & Hr). injection Hcb as ->. congruence.
    + split; [done|]. intros ([=] & _).
  - eexists. split; [reflexivity|]. cbn [configs dirty]. split; [|done].
    rewrite lookup_insert_eq. simpl. by rewrite lookup_insert_eq.
Qed.

Definition cfg_service : service :=
  mkSvc {[ "demo" := {[ "limit" := PInt 3 ]} ]}
        {[ "demo" := {[ "limit" := mkItem TInt (Some 7%nat) ]} ]}
        false.

Definition parse_identity (t : value_type) (x : pyval) : option pyval := Some x.

Lemma set_on_change_then_store_witness :
  default ∅ (config_items cfg_service !! "demo") !! "limit" = Some (mkItem TInt (Some 7%nat)) /\
  parse_identity TInt (PInt 5) = Some (PInt 5) /\
  In (OnChange 7 (PInt 3) (PInt 5))
     (fst (set parse_identity (fun _ _ _ => true) "demo" "limit" (PInt 5) cfg_service)).
Proof.
  split; [reflexivity|]. split; [reflexivity|].
  pose proof (set_on_change_then_store parse_identity (fun _ _ _ => true) cfg_service
                "demo" "limit" (PInt 5) (mkItem TInt (Some 7%nat)) (PInt 5)
                eq_refl eq_refl) as H.
  simpl in H.
  destruct (set parse_identity (fun _ _ _ => true) "demo" "limit" (PInt 5) cfg_service)
    as [eff r] eqn:E.
  destruct H as [Hcall _]. simpl. apply Hcall. split; [reflexivity|].
  split; [reflexivity|]. split; reflexivity.
Defined.

End PluginConfigFacts.

(* ------------------------------------------------------------------ *)
(** ** Event bus: unsubscribe, and the subscribe/unsubscribe round trip *)
(* ------------------------------------------------------------------ *)

Module EventBusUnsubscribe.
Import PyStr EventBus EventBusOrder EventBusPrefix.

(** Every bucket is non-empty and both the buckets and the regex list
    are sorted by the key, as [subscribe] and [unsubscribe] leave them. *)
Definition bus_wf (b : bus) : Prop :=
  (forall t l, exact b !! t = Some l -> l <> [] /\ sort_by_key l = l) /\
  sort_by_key (regex b) = regex b.

Lemma mentions_hid_spec hid l : mentions_hid hid l = true <-> has_hid hid l.
Proof.
  unfold mentions_hid, has_hid. rewrite existsb_exists.
  split; intros (e & He & E); exists e; split; try done.
  - by apply Nat.eqb_eq.
  - by apply Nat.eqb_eq.
Qed.

Lemma filter_other_hid_fresh hid l :
  (forall e, In e l -> e_hid e <> hid) -> List.filter (other_hid hid) l = l.
Proof.
  induction l as [|x l IH]; intros H; simpl; [done|].
  unfold other_hid at 1. destruct (Nat.eqb_spec (e_hid x) hid) as [E|E].
  - exfalso. apply (H x); [by left|done].
  - simpl. rewrite IH; [done|]. intros e He. apply H. by right.
Qed.

Lemma not_has_hid_filter hid l : ~ has_hid hid (List.filter (other_hid hid) l).
Proof.
  intros (e & He & Eh). apply filter_In in He as [_ He].
  unfold other_hid in He. rewrite Eh, Nat.eqb_refl in He. done.
Qed.

(** [ins x l] puts [x] in front when no element of [l] sorts before it. *)
Lemma ins_front x l : (forall y, In y l -> key_ltb y x = false) -> ins x l = x :: l.
Proof.
  destruct l as [|y ys]; intros H; simpl; [done|].
  by rewrite (H y (or_introl eq_refl)).
Qed.

Lemma filter_ins_sorted (P : entry -> bool) x l :
  StronglySorted key_le l ->
  List.filter P (ins x l) = if P x then ins x (List.filter P l) else List.filter P l.
Proof.
  induction l as [|y ys IH]; intros Hs; simpl.
  - by destruct (P x).
  - inversion Hs as [|? ? Hys Hall]; subst.
    destruct (key_ltb y x) eqn:E.
    + simpl. rewrite IH by done.
      destruct (P y), (P x); simpl; try done. by rewrite E.
    + simpl. destruct (P x), (P y); try done.
      * rewrite ins_front; [done|]. intros z Hz.
        destruct Hz as [<-|Hz]; [done|].
        apply filter_In in Hz as [Hz _].
        change (key_le x z). eapply key_le_trans; [exact E|].
        eapply Forall_forall; [exact Hall|]. by apply list_elem_of_In.
      * rewrite ins_front; [done|]. intros z Hz.
        apply filter_In in Hz as [Hz _].
        change (key_le x z). eapply key_le_trans; [exact E|].
        eapply Forall_forall; [exact Hall|]. by apply list_elem_of_In.
Qed.

(** Filtering commutes with the stable sort. *)
Lemma filter_sort_by_key_comm (P : entry -> bool) l :
  List.filter P (sort_by_key l) = sort_by_key (List.filter P l).
Proof.
  induction l as [|x xs IH]; simpl; [done|].
  rewrite filter_ins_sorted by apply sort_by_key_sorted.
  destruct (P x); simpl; by rewrite IH.
Qed.

Lemma sort_by_key_sorted_id l : StronglySorted key_le l -> sort_by_key l = l.
Proof.
  induction 1 as [|x xs Hxs IH Hall]; simpl; [done|].
  rewrite IH. apply ins_front. intros y Hy.
  eapply Forall_forall in Hall; [exact Hall|]. by apply list_elem_of_In.
Qed.

Lemma sort_by_key_idem l : sort_by_key (sort_by_key l) = sort_by_key l.
Proof. apply sort_by_key_sorted_id, sort_by_key_sorted. Qed.

Lemma sort_by_key_nil l : sort_by_key l = [] -> l = [].
Proof.
  intros H. apply Permutation_nil. rewrite <- H. apply sort_by_key_perm.
Qed.

Lemma bucket_unsubscribe b hid t :
  bucket (fst (unsubscribe b hid)) t = List.filter (other_hid hid) (bucket b t).
Proof.
  unfold bucket, unsubscribe. simpl. rewrite lookup_omap.
  destruct (exact b !! t) as [l|]; simpl; [|done].
  unfold prune_bucket. by destruct (List.filter (other_hid hid) l).
Qed.

Lemma has_hid_app hid l1 l2 : has_hid hid (l1 ++ l2) <-> has_hid hid l1 \/ has_hid hid l2.
Proof.
  unfold has_hid. split.
  - intros (e & He & Eh). apply in_app_or in He as [He|He]; [left|right]; by exists e.
  - intros [(e & He & Eh)|(e & He & Eh)]; exists e; split; try done;
      apply in_or_app; auto.
Qed.

Lemma has_hid_flat_map hid f (l : list string) :
  has_hid hid (flat_map f l) <-> exists x, In x l /\ has_hid hid (f x).
Proof.
  unfold has_hid. split.
  - intros (e & He & Eh). apply in_flat_map in He as (x & Hx & He).
    exists x. split; [done|]. by exists e.
  - intros (x & Hx & e & He & Eh). exists e. split; [|done].
    apply in_flat_map. by exists x.
Qed.

Section Unsub.
Variable re_compiles : string -> bool.
Variable re_match : string -> string -> bool.

(** After [unsubscribe(hid)], no event type collects a handler with that
    id, and its plugin metadata is gone. *)
Theorem unsubscribe_removes_everywhere b hid t :
  ~ has_hid hid (collect_handlers re_match (fst (unsubscribe b hid)) t) /\
  handler_meta (fst (unsubscribe b hid)) !! hid = None.
Proof.
  split.
  - unfold collect_handlers. rewrite has_hid_sort. unfold merged_handlers.
    rewrite !has_hid_app, has_hid_flat_map.
    intros [H|[(x & _ & H)|H]].
    + rewrite bucket_unsubscribe in H. by apply not_has_hid_filter in H.
    + rewrite bucket_unsubscribe in H. by apply not_has_hid_filter in H.
    + destruct H as (e & He & Eh). apply filter_In in He as [He _].
      simpl in He. apply filter_In in He as [_ He].
      unfold other_hid in He. rewrite Eh, Nat.eqb_refl in He. done.
  - unfold unsubscribe. simpl. apply lookup_delete_eq.
Qed.

(** [subscribe] keeps every bucket non-empty and every list sorted. *)
Theorem subscribe_keeps_sorted b t h p to pl hid b' :
  bus_wf b -> subscribe re_compiles b t h p to pl hid = Some b' -> bus_wf b'.
Proof.
  intros [Hex Hre]. unfold subscribe.
  destruct (startswith "re:" t).
  - destruct (re_compiles _); intros [= <-]. split; simpl; [done|].
    apply sort_by_key_idem.
  - intros [= <-]. split; simpl; [|done].
    intros k l. destruct (decide (k = t)) as [->|Hne].
    + rewrite lookup_insert_eq. intros [= <-]. split; [|apply sort_by_key_idem].
      intros Hn. apply sort_by_key_nil in Hn. by destruct (bucket b t).
    + rewrite lookup_insert_ne by done. apply Hex.
Qed.

(** Subscribing a fresh handler id and unsubscribing it gives back the
    bus it started from, and reports that something was removed. *)
Theorem subscribe_unsubscribe_roundtrip b t h p to pl hid b' :
  bus_wf b -> hid_fresh b hid -> handler_meta b !! hid = None ->
  subscribe re_compiles b t h p to pl hid = Some b' ->
  unsubscribe b' hid = (b, true).
Proof.
  intros [Hex Hre] [Hfe Hfr] Hmeta. unfold subscribe.
  assert (Hmeta' : forall m : gmap nat string,
            delete hid match pl with Some name => <[hid:=name]> m | None => m end
            = delete hid m).
  { intros m. destruct pl; [apply delete_insert_eq|done]. }
  assert (Hprune : forall k l, exact b !! k = Some l -> prune_bucket hid l = Some l).
  { intros k l Hl. unfold prune_bucket.
    rewrite filter_other_hid_fresh by (intros x Hx; exact (Hfe k l x Hl Hx)).
    destruct l; [by destruct (proj1 (Hex k _ Hl))|done]. }
  assert (Hsorted_filter : forall l e, e_hid e = hid -> sort_by_key l = l ->
            (forall x, In x l -> e_hid x <> hid) ->
            List.filter (other_hid hid) (sort_by_key (l ++ [e])) = l).
  { intros l e Eh Hs Hf. rewrite filter_sort_by_key_comm, List.filter_app.
    rewrite filter_other_hid_fresh by done. simpl.
    unfold other_hid. rewrite Eh, Nat.eqb_refl. simpl. by rewrite app_nil_r. }
  assert (He_in : forall l e, e_hid e = hid -> has_hid hid (sort_by_key (l ++ [e]))).
  { intros l e Eh. apply has_hid_sort. exists e. split; [|done].
    apply in_or_app. right. by left. }
  destruct b as [ex re dt meta]. simpl in *.
  destruct (startswith "re:" t).
  - destruct (re_compiles _); intros [= <-]; unfold unsubscribe; simpl.
    f_equal.
    + f_equal.
      * apply map_eq. intros k. rewrite lookup_omap.
        destruct (ex !! k) as [l|] eqn:Hl; simpl; [|done].
        by rewrite (Hprune k l Hl).
      * apply Hsorted_filter; [done|done|]. intros x Hx. by apply Hfr.
      * by rewrite Hmeta', delete_id.
    + apply orb_true_iff. right. apply mentions_hid_spec, He_in. done.
  - intros [= <-]; unfold unsubscribe; simpl.
    f_equal.
    + f_equal.
      * apply map_eq. intros k. rewrite lookup_omap.
        destruct (decide (k = t)) as [->|Hne].
        -- rewrite lookup_insert_eq.
           change (prune_bucket hid (sort_by_key (bucket (mkBus ex re dt meta) t
                     ++ [mkEntry None p h hid (default dt to)])) = ex !! t).
           unfold prune_bucket, bucket. cbn [exact].
           destruct (ex !! t) as [l|] eqn:Hl; cbn [default].
           ++ rewrite Hsorted_filter.
              ** by destruct l; [destruct (proj1 (Hex t _ Hl))|].
              ** done.
              ** apply (Hex t l Hl).
              ** intros x Hx. exact (Hfe t l x Hl Hx).
           ++ simpl. unfold other_hid. simpl. by rewrite Nat.eqb_refl.
        -- rewrite lookup_insert_ne by done.
           destruct (ex !! k) as [l|] eqn:Hl; simpl; [|done].
           by rewrite (Hprune k l Hl).
      * apply filter_other_hid_fresh. intros x Hx. by apply Hfr.
      * by rewrite Hmeta', delete_id.
    + apply orb_true_iff. left. apply existsb_exists.
      eexists (t, _). split.
      * apply list_elem_of_In, elem_of_map_to_list. apply lookup_insert_eq.
      * apply mentions_hid_spec, He_in. done.
Qed.

End Unsub.

Definition hF : handler := mkHandler "f" 1.
Definition hG : handler := mkHandler "g" 2.
Definition ubus0 : bus :=
  mkBus {[ "a" := [mkEntry None 0 hF 1 10] ]} [] 10 {[ 1%nat := "p" ]}.

Lemma ubus0_wf : bus_wf ubus0.
Proof.
  split; [|reflexivity]. intros t l Hl. simpl in Hl.
  apply lookup_singleton_Some in Hl as [<- <-]. split; [discriminate|reflexivity].
Qed.

Lemma ubus0_fresh : hid_fresh ubus0 2.
Proof.
  split; [|intros e []]. intros k l e Hk Hin. simpl in Hk.
  apply lookup_singleton_Some in Hk as [<- <-].
  destruct Hin as [<-|[]]. simpl. lia.
Qed.

Lemma subscribe_keeps_sorted_witness :
  bus_wf ubus0 /\
  exists b', subscribe (fun _ => true) ubus0 "a" hG 5 None (Some "q") 2 = Some b' /\
             bus_wf b'.
Proof.
  split; [exact ubus0_wf|]. eexists. split; [vm_compute; reflexivity|].
  apply (subscribe_keeps_sorted (fun _ => true) ubus0 "a" hG 5 None (Some "q") 2);
    [exact ubus0_wf | vm_compute; reflexivity].
Defined.

Lemma subscribe_unsubscribe_roundtrip_witness :
  bus_wf ubus0 /\ hid_fresh ubus0 2 /\ handler_meta ubus0 !! 2%nat = None /\
  exists b', subscribe (fun _ => true) ubus0 "a" hG 5 None (Some "q") 2 = Some b' /\
             unsubscribe b' 2 = (ubus0, true).
Proof.
  split; [exact ubus0_wf|]. split; [exact ubus0_fresh|]. split; [reflexivity|].
  eexists. split; [vm_compute; reflexivity|].
  apply (subscribe_unsubscribe_roundtrip (fun _ => true) ubus0 "a" hG 5 None (Some "q") 2);
    [exact ubus0_wf | exact ubus0_fresh | reflexivity | vm_compute; reflexivity].
Defined.

Section Stop.
Variable re_match : string -> string -> bool.
Variable run : entry -> event -> outcome * bool.

Lemma dispatch_stopped meta hs ev :
  ev_stopped ev = true -> fst (dispatch run meta hs ev) = [].
Proof. intros H. destruct hs; simpl; [done|by rewrite H]. Qed.

Lemma dispatch_cons_shape meta e0 hs ev o0 stop :
  ev_stopped ev = false -> run e0 ev = (o0, stop) ->
  fst (dispatch run meta (e0 :: hs) ev) = [(e0, o0)] \/
  exists ev2, ev_stopped ev2 = stop /\
    fst (dispatch run meta (e0 :: hs) ev) = (e0, o0) :: fst (dispatch run meta hs ev2).
Proof.
  intros Hs Hr. simpl. rewrite Hs, Hr.
  destruct o0 as [v|x|]; [|destruct (exc_cls x)|]; try (left; reflexivity);
  match goal with
  | |- context [dispatch run meta hs ?E] =>
      right; exists E; split; [reflexivity | by destruct (dispatch run meta hs E)]
  end.
Qed.

(** A handler that always sets [propagation_stopped] is the last one
    [publish] invokes: nothing is invoked after it. *)
Theorem stop_propagation_last meta hs ev pre e o post :
  (forall ev', snd (run e ev') = true) ->
  fst (dispatch run meta hs ev) = pre ++ (e, o) :: post -> post = [].
Proof.
  intros Hstop. revert ev pre. induction hs as [|e0 hs IH]; intros ev pre.
  - simpl. by destruct pre.
  - destruct (ev_stopped ev) eqn:Hs.
    { simpl. rewrite Hs. by destruct pre. }
    destruct (run e0 ev) as [o0 stop] eqn:Hr.
    destruct (dispatch_cons_shape meta e0 hs ev o0 stop Hs Hr) as [E|(ev2 & Hs2 & E)];
      rewrite E; intros H.
    + destruct pre as [|p [|q pre]]; simpl in H; inversion H; done.
    + destruct pre as [|p pre]; simpl in H.
      * inversion H; subst.
        pose proof (Hstop ev) as Ht. rewrite Hr in Ht. simpl in Ht.
        by rewrite dispatch_stopped.
      * inversion H; subst. by apply (IH ev2 pre).
Qed.

(** Through [publish]: after a handler that always stops propagation, no
    other handler of the event is invoked. *)
Theorem publish_stop_propagation_last b ev pre e o post :
  (forall ev', snd (run e ev') = true) ->
  fst (publish re_match run b ev) = pre ++ (e, o) :: post -> post = [].
Proof.
  intros Hstop. unfold publish.
  destruct (dispatch run _ _ ev) as [calls res] eqn:Hd. simpl. intros H. subst calls.
  eapply stop_propagation_last; [exact Hstop|]. rewrite Hd. reflexivity.
Qed.

End Stop.

Definition ubus_two : bus :=
  mkBus {[ "a" := [mkEntry None 5 hG 2 10; mkEntry None 0 hF 1 10] ]} [] 10 ∅.

Definition stop_all (e : entry) (ev : event) : outcome * bool := (Returned (e_hid e), true).
Definition ev0 : event := mkEvent "a" [] [] false.

Lemma publish_stop_propagation_last_witness :
  (forall ev', snd (stop_all (mkEntry None 5 hG 2 10) ev') = true) /\
  fst (publish (fun _ _ => false) stop_all ubus_two ev0)
    = [] ++ (mkEntry None 5 hG 2 10, Returned 2) :: [] /\ @nil (entry * outcome) = [].
Proof.
  assert (Hs : forall ev', snd (stop_all (mkEntry None 5 hG 2 10) ev') = true)
    by reflexivity.
  assert (Hp : fst (publish (fun _ _ => false) stop_all ubus_two ev0)
               = [] ++ (mkEntry None 5 hG 2 10, Returned 2) :: []) by (vm_compute; reflexivity).
  split; [exact Hs|]. split; [exact Hp|].
  exact (publish_stop_propagation_last (fun _ _ => false) stop_all ubus_two ev0 []
           (mkEntry None 5 hG 2 10) (Returned 2) [] Hs Hp).
Defined.

End EventBusUnsubscribe.

(* ------------------------------------------------------------------ *)
(** ** Service manager: what [load_all], [close_all], [load] and
    [unload] leave behind *)
(* ------------------------------------------------------------------ *)

Module ServiceManagerFacts.
Import ServiceManager ServiceManagerOrder.

Section Facts.
Variable construct_ok : string -> bool.
Variable load_ok : string -> bool.
Variable close_ok : string -> bool.

Definition load_all_step (n : string) (m' : manager) : list effect * (manager + err) :=
  if mem n (services m') then ([], inl m') else load construct_ok load_ok n m'.

Lemma load_all_unfold m :
  load_all construct_ok load_ok m = for_each load_all_step (service_classes m) m.
Proof. reflexivity. Qed.

Lemma for_each_cons step n ns m :
  for_each step (n :: ns) m =
  let '(tr, r) := step n m in
  match r with
  | inl m' => let '(tr', r') := for_each step ns m' in (tr ++ tr', r')
  | inr e => (tr, inr e)
  end.
Proof. reflexivity. Qed.

Lemma load_all_go_success ns m tr m' :
  for_each load_all_step ns m = (tr, inl m') ->
  service_classes m' = service_classes m /\
  (forall n, In n (services m) -> In n (services m')) /\
  (forall n, In n ns -> In n (services m')).
Proof.
  revert m tr. induction ns as [|n ns IH]; intros m tr.
  - simpl. intros [= _ <-]. split; [done|]. split; [done|]. intros n [].
  - rewrite for_each_cons. unfold load_all_step at 1.
    destruct (mem n (services m)) eqn:Hm.
    + destruct (for_each load_all_step ns m) as [tr' r'] eqn:Hr. simpl.
      intros [= _ ->]. destruct (IH m tr' Hr) as (Hc & Hs & Hn).
      split; [done|]. split; [done|]. intros x [<-|Hx]; [|by apply Hn].
      apply Hs, mem_spec, Hm.
    + unfold load. rewrite Hm. simpl.
      destruct (mem n (service_classes m)); simpl; [|done].
      destruct (construct_ok n); simpl; [|done].
      destruct (load_ok n); [|done].
      destruct (for_each load_all_step ns _) as [tr' r'] eqn:Hr.
      intros [= _ ->]. destruct (IH _ tr' Hr) as (Hc & Hs & Hn). simpl in Hc, Hs.
      split; [done|]. split.
      * intros x Hx. apply Hs, in_or_app. by left.
      * intros x [<-|Hx]; [|by apply Hn]. apply Hs, in_or_app. right. by left.
Qed.

Lemma load_all_go_noop ns m :
  (forall n, In n ns -> In n (services m)) ->
  for_each load_all_step ns m = ([], inl m).
Proof.
  induction ns as [|n ns IH]; intros H; [done|].
  rewrite for_each_cons. unfold load_all_step at 1.
  assert (Hm : mem n (services m) = true) by (apply mem_spec, H; by left).
  rewrite Hm, IH; [done|]. intros x Hx. apply H. by right.
Qed.

(** [load_all] is idempotent: once it has completed, a second call loads
    nothing and changes nothing. *)
Theorem load_all_idempotent m tr m' :
  load_all construct_ok load_ok m = (tr, inl m') -> load_all construct_ok load_ok m' = ([], inl m').
Proof.
  rewrite !load_all_unfold. intros H.
  destruct (load_all_go_success _ _ _ _ H) as (Hc & _ & Hn).
  rewrite Hc. by apply load_all_go_noop.
Qed.

(** A completed [load_all] leaves every registered service loaded, keeps
    the services that were already loaded, and registers nothing. *)
Theorem load_all_loads_registered m tr m' :
  load_all construct_ok load_ok m = (tr, inl m') ->
  service_classes m' = service_classes m /\
  (forall n, In n (service_classes m) -> In n (services m')) /\
  (forall n, In n (services m) -> In n (services m')).
Proof.
  rewrite load_all_unfold. intros H.
  destruct (load_all_go_success _ _ _ _ H) as (Hc & Hs & Hn). done.
Qed.

Lemma load_all_go_failure ns m tr e :
  (forall n, In n ns -> In n (service_classes m)) ->
  for_each load_all_step ns m = (tr, inr e) ->
  exists n ok, In n ns /\
    Forall (fun x => construct_ok x = true /\ load_ok x = true) ok /\
    ((construct_ok n = false /\ e = InitError n /\ tr = map Load ok) \/
     (construct_ok n = true /\ load_ok n = false /\ e = ServiceError n /\
      tr = map Load ok ++ [Load n])).
Proof.
  revert m tr. induction ns as [|n ns IH]; intros m tr Hin; [done|].
  assert (Hin' : forall y, In y ns -> In y (service_classes m)).
  { intros y Hy. apply Hin. by right. }
  rewrite for_each_cons. unfold load_all_step at 1.
  destruct (mem n (services m)) eqn:Hm.
  - destruct (for_each load_all_step ns m) as [tr' r'] eqn:Hr. simpl.
    intros [= <- ->].
    destruct (IH m tr' Hin' Hr) as (x & ok & Hxin & Hok & Hcase).
    exists x, ok. split; [by right|]. by split.
  - unfold load. rewrite Hm. simpl.
    assert (Hc : mem n (service_classes m) = true) by (apply mem_spec, Hin; by left).
    rewrite Hc. simpl.
    destruct (construct_ok n) eqn:Hcons; simpl.
    2: { intros [= <- <-]. exists n, []. split; [by left|]. split; [done|]. by left. }
    destruct (load_ok n) eqn:Hok.
    + destruct (for_each load_all_step ns _) as [tr' r'] eqn:Hr.
      intros [= <- ->].
      destruct (IH (mkManager (service_classes m) (services m ++ [n])) tr' Hin' Hr)
        as (x & ok & Hxin & Hoks & Hcase).
      exists x, (n :: ok). split; [by right|]. split; [by constructor|].
      destruct Hcase as [(H1 & H2 & ->)|(H1 & H2 & H3 & ->)]; [left|right]; done.
    + intros [= <- <-]. exists n, []. split; [by left|]. split; [done|]. by right.
Qed.

(** [load_all] never raises [KeyError]: when it fails, the exception is
    the one of the constructor or of the [_load] of a registered service,
    every [_load] started before completed, and a failing [_load] is the
    last one started. *)
Theorem load_all_failure m tr e :
  load_all construct_ok load_ok m = (tr, inr e) ->
  exists n ok, In n (service_classes m) /\
    Forall (fun x => construct_ok x = true /\ load_ok x = true) ok /\
    ((construct_ok n = false /\ e = InitError n /\ tr = map Load ok) \/
     (construct_ok n = true /\ load_ok n = false /\ e = ServiceError n /\
      tr = map Load ok ++ [Load n])).
Proof.
  rewrite load_all_unfold. intros H.
  by apply (load_all_go_failure (service_classes m) m).
Qed.

Lemma close_all_go_success ns m tr m' :
  (forall n, In n (services m) -> In n ns) ->
  for_each (unload close_ok) ns m = (tr, inl m') ->
  service_classes m' = service_classes m /\ services m' = [].
Proof.
  revert m tr. induction ns as [|n ns IH]; intros m tr Hsub.
  - simpl. intros [= _ <-]. split; [done|].
    destruct (services m) as [|x s]; [done|]. by destruct (Hsub x (or_introl eq_refl)).
  - rewrite for_each_cons. unfold unload at 1.
    destruct (mem n (services m)) eqn:Hm; simpl.
    + destruct (close_ok n); [|done].
      destruct (for_each (unload close_ok) ns _) as [tr' r'] eqn:Hr.
      intros [= _ ->]. eapply IH in Hr as [Hc Hs]; [by split|].
      simpl. intros x Hx. apply filter_In in Hx as [Hx Hne].
      destruct (Hsub x Hx) as [<-|Hx']; [|done].
      by rewrite String.eqb_refl in Hne.
    + destruct (for_each (unload close_ok) ns m) as [tr' r'] eqn:Hr.
      intros [= _ ->]. apply (IH m tr'); [|done].
      intros x Hx. destruct (Hsub x Hx) as [<-|Hx']; [|done].
      apply mem_false in Hm. done.
Qed.

(** A completed [close_all] leaves no service loaded and the registered
    services as they were. *)
Theorem close_all_empties m tr m' :
  close_all close_ok m = (tr, inl m') ->
  services m' = [] /\ service_classes m' = service_classes m.
Proof.
  unfold close_all. intros H.
  destruct (close_all_go_success (services m) m tr m') as [Hc Hs]; done.
Qed.

Lemma close_all_go_failure ns m tr e :
  for_each (unload close_ok) ns m = (tr, inr e) ->
  exists n ok, e = ServiceError n /\ close_ok n = false /\ In n ns /\
    tr = map Close ok ++ [Close n] /\ Forall (fun x => close_ok x = true) ok.
Proof.
  revert m tr. induction ns as [|n ns IH]; intros m tr; [done|].
  rewrite for_each_cons. unfold unload at 1.
  destruct (mem n (services m)) eqn:Hm; simpl.
  - destruct (close_ok n) eqn:Hok.
    + destruct (for_each (unload close_ok) ns _) as [tr' r'] eqn:Hr.
      intros [= <- ->].
      destruct (IH _ tr' Hr) as (x & ok & He & Hx & Hxin & Htr & Hoks).
      exists x, (n :: ok). repeat split; try done.
      * by right.
      * simpl. by rewrite Htr.
      * by constructor.
    + intros [= <- <-]. exists n, []. repeat split; try done. by left.
  - destruct (for_each (unload close_ok) ns m) as [tr' r'] eqn:Hr.
    intros [= <- ->].
    destruct (IH m tr' Hr) as (x & ok & He & Hx & Hxin & Htr & Hoks).
    exists x, ok. repeat split; try done. by right.
Qed.

(** When [close_all] fails, the exception is the one of the [_close] of a
    loaded service, the last one it started, and every close started
    before it completed. *)
Theorem close_all_failure m tr e :
  close_all close_ok m = (tr, inr e) ->
  exists n ok, e = ServiceError n /\ close_ok n = false /\ In n (services m) /\
    tr = map Close ok ++ [Close n] /\ Forall (fun x => close_ok x = true) ok.
Proof. unfold close_all. apply close_all_go_failure. Qed.

(** Loading a registered service that is not loaded and then unloading
    it, both completing, gives back the manager it started from. *)
Theorem load_unload_roundtrip n m m1 :
  In n (service_classes m) -> ~ In n (services m) -> close_ok n = true ->
  load construct_ok load_ok n m = ([Load n], inl m1) ->
  unload close_ok n m1 = ([Close n], inl m).
Proof.
  intros Hc Hs Hok. unfold load.
  rewrite (proj2 (mem_false n _) Hs), (proj2 (mem_spec n _) Hc). simpl.
  destruct (construct_ok n); [|done]. simpl.
  destruct (load_ok n); [|done]. intros [= <-].
  unfold unload. simpl.
  assert (Hm : mem n (services m ++ [n]) = true).
  { apply mem_spec, in_or_app. right. by left. }
  rewrite Hm, Hok. simpl. rewrite List.filter_app, filter_neq_notin by done.
  simpl. rewrite String.eqb_refl. simpl. rewrite app_nil_r. by destruct m.
Qed.

End Facts.

Definition one_loaded : manager := mkManager ["websocket"; "preupload"] ["websocket"].

Lemma load_all_idempotent_witness :
  exists tr m', load_all (fun _ => true) (fun _ => true) one_loaded = (tr, inl m') /\
                load_all (fun _ => true) (fun _ => true) m' = ([], inl m').
Proof.
  do 2 eexists. split; [vm_compute; reflexivity|].
  apply (load_all_idempotent (fun _ => true) (fun _ => true) one_loaded
           [Load "preupload"] (mkManager ["websocket"; "preupload"] ["websocket"; "preupload"])).
  vm_compute. reflexivity.
Defined.

Lemma load_all_loads_registered_witness :
  load_all (fun _ => true) (fun _ => true) one_loaded
    = ([Load "preupload"], inl (mkManager ["websocket"; "preupload"] ["websocket"; "preupload"])) /\
  service_classes (mkManager ["websocket"; "preupload"] ["websocket"; "preupload"])
    = service_classes one_loaded.
Proof.
  assert (H : load_all (fun _ => true) (fun _ => true) one_loaded
    = ([Load "preupload"], inl (mkManager ["websocket"; "preupload"] ["websocket"; "preupload"])))
    by (vm_compute; reflexivity).
  split; [exact H|].
  exact (proj1 (load_all_loads_registered (fun _ => true) (fun _ => true) _ _ _ H)).
Defined.

Lemma load_all_failure_witness :
  load_all (fun _ => true) fail_preupload two_services
    = ([Load "websocket"; Load "preupload"], inr (ServiceError "preupload")) /\
  exists n ok, In n (service_classes two_services) /\
    Forall (fun x => (fun _ => true) x = true /\ fail_preupload x = true) ok /\
    (((fun _ => true) n = false /\ ServiceError "preupload" = InitError n /\
      [Load "websocket"; Load "preupload"] = map Load ok) \/
     ((fun _ => true) n = true /\ fail_preupload n = false /\
      ServiceError "preupload" = ServiceError n /\
      [Load "websocket"; Load "preupload"] = map Load ok ++ [Load n])).
Proof.
  assert (H : load_all (fun _ => true) fail_preupload two_services
              = ([Load "websocket"; Load "preupload"], inr (ServiceError "preupload")))
    by (vm_compute; reflexivity).
  split; [exact H|].
  exact (load_all_failure (fun _ => true) fail_preupload two_services _ _ H).
Defined.

Definition both_loaded : manager :=
  mkManager ["websocket"; "preupload"] ["websocket"; "preupload"].

Lemma close_all_empties_witness :
  close_all (fun _ => true) both_loaded
    = ([Close "websocket"; Close "preupload"], inl (mkManager ["websocket"; "preupload"] [])) /\
  services (mkManager ["websocket"; "preupload"] []) = [] /\
  service_classes (mkManager ["websocket"; "preupload"] []) = service_classes both_loaded.
Proof.
  assert (H : close_all (fun _ => true) both_loaded
    = ([Close "websocket"; Close "preupload"], inl (mkManager ["websocket"; "preupload"] [])))
    by (vm_compute; reflexivity).
  split; [exact H|].
  exact (close_all_empties (fun _ => true) _ _ _ H).
Defined.

Lemma close_all_failure_witness :
  close_all fail_preupload both_loaded
    = ([Close "websocket"; Close "preupload"], inr (ServiceError "preupload")) /\
  exists n ok, ServiceError "preupload" = ServiceError n /\ fail_preupload n = false /\
    In n (services both_loaded) /\
    [Close "websocket"; Close "preupload"] = map Close ok ++ [Close n] /\
    Forall (fun x => fail_preupload x = true) ok.
Proof.
  assert (H : close_all fail_preupload both_loaded
              = ([Close "websocket"; Close "preupload"], inr (ServiceError "preupload")))
    by (vm_compute; reflexivity).
  split; [exact H|].
  exact (close_all_failure fail_preupload both_loaded _ _ H).
Defined.

Lemma load_unload_roundtrip_witness :
  load (fun _ => true) (fun _ => true) "preupload" one_loaded = ([Load "preupload"], inl both_loaded) /\
  unload (fun _ => true) "preupload" both_loaded = ([Close "preupload"], inl one_loaded).
Proof.
  assert (H : load (fun _ => true) (fun _ => true) "preupload" one_loaded = ([Load "preupload"], inl both_loaded))
    by (vm_compute; reflexivity).
  split; [exact H|].
  apply (load_unload_roundtrip (fun _ => true) (fun _ => true) (fun _ => true) "preupload" one_loaded both_loaded).
  - simpl. right. by left.
  - simpl. intros [E|[]]. discriminate.
  - reflexivity.
  - exact H.
Defined.

End ServiceManagerFacts.

(* ------------------------------------------------------------------ *)
(** ** Importer: sanitized package names and module unloading *)
(* ------------------------------------------------------------------ *)

Module ImporterNames.
Import PyStr EventParser Importer.

Definition name_char (a : ascii) : bool := keeps (N_of_ascii a).

Fixpoint all_name_chars (s : string) : bool :=
  match s with
  | EmptyString => true
  | String c s' => name_char c && all_name_chars s'
  end.

(** Non-empty, and not starting with a digit. *)
Definition first_ok (s : string) : bool :=
  match s with
  | String c _ => negb (is_digit c)
  | EmptyString => false
  end.

Lemma all_name_chars_app s t :
  all_name_chars (s ++ t) = all_name_chars s && all_name_chars t.
Proof. induction s as [|c s IH]; simpl; [done|]. by rewrite IH, andb_assoc. Qed.

Lemma string_app_empty_r s : (s ++ "")%string = s.
Proof. induction s as [|c s IH]; simpl; [done|]. by rewrite IH. Qed.

Lemma first_ok_app s t : first_ok s = true -> first_ok (s ++ t) = true.
Proof. by destruct s. Qed.

Lemma sub_char_ok c : name_char (sub_char c) = true.
Proof.
  unfold sub_char, name_char. destruct (keeps c) eqn:E; [|reflexivity].
  rewrite N_ascii_embedding; [exact E|].
  unfold keeps in E. repeat rewrite ?orb_true_iff, ?andb_true_iff in E.
  rewrite ?N.leb_le, ?N.eqb_eq in E. lia.
Qed.

Lemma re_sub_name_ok name : all_name_chars (re_sub_name name) = true.
Proof.
  unfold re_sub_name. induction name as [|c name IH]; simpl; [done|].
  by rewrite sub_char_ok, IH.
Qed.

Lemma base_name_ok name :
  all_name_chars (base_name name) = true /\ first_ok (base_name name) = true.
Proof.
  unfold base_name. pose proof (re_sub_name_ok name) as H.
  destruct (re_sub_name name) as [|c r]; [done|].
  destruct (is_digit c) eqn:E; simpl.
  - simpl in H. by rewrite H.
  - by rewrite E.
Qed.

Lemma uint_to_string_digits d : all_name_chars (uint_to_string d) = true.
Proof. induction d; simpl; try rewrite IHd; reflexivity. Qed.

Lemma z_to_str_nat_digits n : all_name_chars (z_to_str (Z.of_nat n)) = true.
Proof.
  unfold z_to_str. destruct n as [|n]; [reflexivity|].
  simpl. apply uint_to_string_digits.
Qed.

Lemma next_free_shape base used san idx fuel :
  (exists x, san = (base ++ x)%string /\ all_name_chars x = true) ->
  exists x, next_free base used san idx fuel = (base ++ x)%string /\ all_name_chars x = true.
Proof.
  revert san idx. induction fuel as [|fuel IH]; intros san idx H; simpl; [done|].
  case_bool_decide; [|done].
  apply IH. exists ("_" ++ z_to_str (Z.of_nat idx))%string. split; [done|].
  simpl. apply z_to_str_nat_digits.
Qed.

(** The candidates the [while] loop tries, in order. *)
Definition cand (base : string) (k : nat) : string :=
  match k with
  | O => base
  | S _ => (base ++ "_" ++ z_to_str (Z.of_nat k))%string
  end.

Lemma uint_to_string_inj d1 d2 : uint_to_string d1 = uint_to_string d2 -> d1 = d2.
Proof.
  revert d2. induction d1; intros d2; destruct d2; simpl; intros H;
    try discriminate; try reflexivity; injection H as H; f_equal; auto.
Qed.

Lemma z_to_str_inj z1 z2 : z_to_str z1 = z_to_str z2 -> z1 = z2.
Proof.
  unfold z_to_str. intros H.
  rewrite <- (DecimalZ.of_to z1), <- (DecimalZ.of_to z2). f_equal.
  destruct (Z.to_int z1) as [d1|d1], (Z.to_int z2) as [d2|d2].
  - by rewrite (uint_to_string_inj d1 d2 H).
  - destruct d1; discriminate.
  - destruct d2; discriminate.
  - injection H as H. by rewrite (uint_to_string_inj d1 d2 H).
Qed.

Lemma string_app_cancel_l p a b : (p ++ a)%string = (p ++ b)%string -> a = b.
Proof. induction p as [|c p IH]; simpl; [done|]. intros H. injection H as H. auto. Qed.

Lemma string_app_nonempty_neq p c s : p <> (p ++ String c s)%string.
Proof. induction p as [|c' p IH]; simpl; [discriminate|]. intros H. injection H as H. auto. Qed.

Lemma cand_inj base i j : cand base i = cand base j -> i = j.
Proof.
  destruct i as [|i], j as [|j]; simpl; intros H.
  - done.
  - by apply string_app_nonempty_neq in H.
  - symmetry in H. by apply string_app_nonempty_neq in H.
  - apply string_app_cancel_l in H. injection H as H.
    apply z_to_str_inj in H. lia.
Qed.

Lemma next_free_used base used k fuel :
  next_free base used (cand base k) (S k) fuel ∈ used ->
  forall j, (k <= j <= k + fuel)%nat -> cand base j ∈ used.
Proof.
  revert k. induction fuel as [|fuel IH]; intros k; simpl.
  - intros H j Hj. by replace j with k by lia.
  - case_bool_decide as Hin; [|done].
    intros H j Hj. destruct (decide (j = k)) as [->|Hne]; [done|].
    apply (IH (S k)); [exact H|lia].
Qed.

(** The [while] loop, with the tests [_ensure_sanitized] allows it,
    always ends on a name that is not used yet. *)
Lemma next_free_fresh base used :
  next_free base used base 1 (S (size used)) ∉ used.
Proof.
  intros H. change base with (cand base 0) in H at 2.
  pose proof (next_free_used base used 0 (S (size used)) H) as Hall.
  set (l := map (cand base) (seq 0 (S (size used)))).
  assert (Hnd : NoDup l).
  { unfold l. apply NoDup_ListNoDup, Finite.Injective_map_NoDup; [intros i j; apply cand_inj|apply seq_NoDup]. }
  assert (Hsub : (list_to_set l : gset string) ⊆ used).
  { intros x Hx. apply elem_of_list_to_set, list_elem_of_In in Hx.
    apply in_map_iff in Hx as (j & <- & Hj). apply in_seq in Hj.
    apply Hall. lia. }
  apply subseteq_size in Hsub. rewrite size_list_to_set in Hsub by done.
  unfold l in Hsub. rewrite length_map, length_seq in Hsub. lia.
Qed.

(** What [_ensure_sanitized] keeps: every recorded name is well formed
    and used, and no two plugins share one. *)
Definition names_inv (st : names) : Prop :=
  (forall n s, sanitized_names st !! n = Some s ->
     all_name_chars s = true /\ first_ok s = true /\ s ∈ used_sanitized st) /\
  (forall n1 n2 s, sanitized_names st !! n1 = Some s -> sanitized_names st !! n2 = Some s ->
     n1 = n2).

Lemma names_inv_empty : names_inv (mkNames ∅ ∅).
Proof. split; simpl; intros *; rewrite lookup_empty; discriminate. Qed.

Lemma next_free_ok name used :
  let s := next_free (base_name name) used (base_name name) 1 (S (size used)) in
  all_name_chars s = true /\ first_ok s = true.
Proof.
  destruct (base_name_ok name) as [Hc Hf].
  destruct (next_free_shape (base_name name) used (base_name name) 1 (S (size used)))
    as (x & Hx & Hxc).
  { exists ""%string. by rewrite string_app_empty_r. }
  cbv zeta. rewrite Hx, all_name_chars_app, Hc, Hxc. split; [done|]. by apply first_ok_app.
Qed.

(** [_ensure_sanitized] returns a name made only of ASCII letters, digits
    and underscores, non-empty and not starting with a digit. *)
Theorem ensure_sanitized_wellformed name st :
  names_inv st ->
  all_name_chars (snd (ensure_sanitized name st)) = true /\
  first_ok (snd (ensure_sanitized name st)) = true.
Proof.
  intros [Hv _]. unfold ensure_sanitized.
  destruct (sanitized_names st !! name) as [s|] eqn:E; simpl.
  - destruct (Hv name s E) as (? & ? & _). done.
  - apply next_free_ok.
Qed.

(** [_ensure_sanitized] keeps the invariant: a new plugin gets a name no
    plugin had, recorded as used; names given before are kept; and asking
    again for the same plugin returns the same name and changes nothing. *)
Theorem ensure_sanitized_fresh_memo name st st' s :
  names_inv st -> ensure_sanitized name st = (st', s) ->
  names_inv st' /\ sanitized_names st' !! name = Some s /\
  (sanitized_names st !! name = None -> s ∉ used_sanitized st) /\
  (forall n s0, sanitized_names st !! n = Some s0 -> sanitized_names st' !! n = Some s0) /\
  ensure_sanitized name st' = (st', s).
Proof.
  intros [Hv Hinj]. unfold ensure_sanitized.
  destruct (sanitized_names st !! name) as [s1|] eqn:E.
  - intros [= <- <-]. split; [by split|]. split; [done|]. split; [done|].
    split; [done|]. unfold ensure_sanitized. by rewrite E.
  - intros [= <- <-].
    set (s0 := next_free (base_name name) (used_sanitized st) (base_name name) 1
                 (S (size (used_sanitized st)))).
    pose proof (next_free_fresh (base_name name) (used_sanitized st)) as Hfresh.
    pose proof (next_free_ok name (used_sanitized st)) as [Hc Hf].
    fold s0 in Hfresh, Hc, Hf.
    assert (Hold : forall n s1, sanitized_names st !! n = Some s1 ->
              (<[name:=s0]> (sanitized_names st)) !! n = Some s1).
    { intros n s1 Hn. rewrite lookup_insert_ne; [done|]. intros ->. congruence. }
    split; [split|]; simpl.
    + intros n s1 Hn. destruct (decide (n = name)) as [->|Hne].
      * rewrite lookup_insert_eq in Hn. injection Hn as <-.
        split; [done|]. split; [done|]. set_solver.
      * rewrite lookup_insert_ne in Hn by done.
        destruct (Hv n s1 Hn) as (? & ? & ?). split; [done|]. split; [done|]. set_solver.
    + intros n1 n2 s1 H1 H2.
      destruct (decide (n1 = name)) as [->|Hne1], (decide (n2 = name)) as [->|Hne2];
        try done.
      * rewrite lookup_insert_eq in H1. rewrite lookup_insert_ne in H2 by done.
        injection H1 as <-. destruct (Hv n2 s0 H2) as (_ & _ & Hu). done.
      * rewrite lookup_insert_eq in H2. rewrite lookup_insert_ne in H1 by done.
        injection H2 as <-. destruct (Hv n1 s0 H1) as (_ & _ & Hu). done.
      * rewrite lookup_insert_ne in H1, H2 by done. by apply (Hinj n1 n2 s1).
    + split; [apply lookup_insert_eq|]. split; [done|]. split; [exact Hold|].
      unfold ensure_sanitized. simpl. by rewrite lookup_insert_eq.
Qed.

Lemma string_app_assoc a b c : (a ++ b ++ c)%string = ((a ++ b) ++ c)%string.
Proof. induction a as [|x a IH]; simpl; [done|]. by rewrite IH. Qed.

Lemma startswith_app p s : startswith p (p ++ s) = true.
Proof.
  unfold startswith. induction p as [|c p IH]; simpl; [by destruct s|].
  destruct (ascii_dec c c); [exact IH|done].
Qed.

Lemma fold_delete_lookup (ks : list string) (m : gmap string modv) k :
  fold_left (fun m k => delete k m) ks m !! k = if bool_decide (k ∈ ks) then None else m !! k.
Proof.
  revert m. induction ks as [|k' ks IH]; intros m; cbn [fold_left].
  - case_bool_decide; [set_solver|done].
  - rewrite IH. destruct (decide (k = k')) as [->|Hne].
    + rewrite lookup_delete_eq. repeat case_bool_decide; try set_solver; done.
    + rewrite lookup_delete_ne by done. repeat case_bool_decide; try set_solver; done.
Qed.

(** [unload_plugin_module] refuses an empty name, returning [False] and
    leaving [sys.modules] alone; otherwise it returns [True] and removes
    exactly the plugin package and its submodules, keeping every other
    module. *)
Theorem unload_plugin_module_removes_namespace sn name mods :
  (name = ""%string -> unload_plugin_module sn name mods = (mods, false)) /\
  (name <> ""%string ->
   snd (unload_plugin_module sn name mods) = true /\
   forall k, fst (unload_plugin_module sn name mods) !! k =
             if in_namespace (get_plugin_pkg_name sn name) k then None else mods !! k).
Proof.
  split.
  - intros ->. reflexivity.
  - intros Hne. unfold unload_plugin_module.
    rewrite (proj2 (String.eqb_neq name "") Hne).
    set (pkg := get_plugin_pkg_name sn name).
    assert (Hin : forall k, In k (List.filter (in_namespace pkg) (map fst (map_to_list mods)))
                  <-> in_namespace pkg k = true /\ is_Some (mods !! k)).
    { intros k. rewrite filter_In, in_map_iff. split.
      - intros [([k' v] & Ek & Hkv) Hp]. simpl in Ek. subst k'. split; [done|]. exists v.
        by apply elem_of_map_to_list, list_elem_of_In.
      - intros [Hp [v Hv]]. split; [|done]. exists (k, v). split; [done|].
        by apply list_elem_of_In, elem_of_map_to_list. }
    destruct (List.filter (in_namespace pkg) (map fst (map_to_list mods))) as [|k0 ks] eqn:E.
    + split; [done|]. intros k. simpl. destruct (in_namespace pkg k) eqn:Hp; [|done].
      destruct (mods !! k) as [v|] eqn:Hv; [|done].
      exfalso. apply (proj2 (Hin k)). split; [done|]. by exists v.
    + split; [done|]. intros k.
      change (fold_left (fun m k => delete k m) (k0 :: ks) mods !! k
              = if in_namespace pkg k then None else mods !! k).
      rewrite fold_delete_lookup.
      case_bool_decide as Hk; rewrite list_elem_of_In in Hk.
      * apply Hin in Hk as [-> _]. done.
      * destruct (in_namespace pkg k) eqn:Hp; [|done].
        destruct (mods !! k) as [v|] eqn:Hv; [|done].
        exfalso. apply Hk, Hin. split; [done|]. by exists v.
Qed.

Lemma in_namespace_pkg pkg : in_namespace pkg pkg = true.
Proof. unfold in_namespace. by rewrite String.eqb_refl. Qed.

Lemma in_namespace_sub pkg stem : in_namespace pkg (pkg ++ "." ++ stem) = true.
Proof.
  unfold in_namespace. apply orb_true_iff. right.
  rewrite string_app_assoc. apply startswith_app.
Qed.

Section LoadUnload.
Variable spec_ok : bool.
Variable exec_module : sys_state -> sys_state * bool.

(** Whatever its outcome, [load_plugin_module] changes [sys.modules] only
    inside the plugin namespace, when the plugin code does the same. *)
Lemma load_plugin_module_outside plugin_path san stem s s' r k :
  (forall s3 s4 ok, exec_module s3 = (s4, ok) ->
     forall k, in_namespace (plugin_pkg_name san) k = false ->
     sys_modules s4 !! k = sys_modules s3 !! k) ->
  load_plugin_module spec_ok exec_module plugin_path san stem s = (s', r) ->
  in_namespace (plugin_pkg_name san) k = false ->
  sys_modules s' !! k = sys_modules s !! k /\ sys_path s' = sys_path s.
Proof.
  intros Hexec Hload Hk.
  assert (Hp : k <> plugin_pkg_name san).
  { intros ->. by rewrite in_namespace_pkg in Hk. }
  assert (Hm : k <> plugin_main_module_name san stem).
  { intros ->. unfold plugin_main_module_name in Hk. by rewrite in_namespace_sub in Hk. }
  revert Hload. unfold load_plugin_module. simpl.
  destruct (sys_modules s !! plugin_pkg_name san) as [v|] eqn:Epkg; simpl;
    (destruct spec_ok; simpl;
     [ destruct (exec_module _) as [s4 ok] eqn:Ex;
       pose proof (Hexec _ _ _ Ex k Hk) as H4; simpl in H4;
       destruct ok; intros [= <- _]; simpl; split; try done;
       rewrite ?lookup_delete_ne by done; rewrite H4, ?lookup_insert_ne by done; done
     | intros [= <- _]; simpl; split; [|done]; by rewrite ?lookup_insert_ne ]).
Qed.

(** Loading a plugin and then unloading it, whether the load succeeded
    or raised, gives back [sys.modules] as it was, when the plugin code
    only registers modules of its own namespace and that namespace was
    empty before; [sys.path] is restored as well. *)
Theorem load_then_unload_restores sn name san plugin_path stem s s' r :
  sn !! name = Some san -> name <> ""%string ->
  (forall k, in_namespace (plugin_pkg_name san) k = true -> sys_modules s !! k = None) ->
  (forall s3 s4 ok, exec_module s3 = (s4, ok) ->
     forall k, in_namespace (plugin_pkg_name san) k = false ->
     sys_modules s4 !! k = sys_modules s3 !! k) ->
  load_plugin_module spec_ok exec_module plugin_path san stem s = (s', r) ->
  fst (unload_plugin_module sn name (sys_modules s')) = sys_modules s /\
  sys_path s' = sys_path s.
Proof.
  intros Hsn Hne Hfree Hexec Hload.
  assert (Hpkg : get_plugin_pkg_name sn name = plugin_pkg_name san).
  { unfold get_plugin_pkg_name. by rewrite Hsn. }
  split.
  - apply map_eq. intros k.
    destruct (proj2 (unload_plugin_module_removes_namespace sn name (sys_modules s')) Hne)
      as [_ Hk]. rewrite Hk, Hpkg.
    destruct (in_namespace (plugin_pkg_name san) k) eqn:Hns.
    + symmetry. by apply Hfree.
    + by apply (load_plugin_module_outside plugin_path san stem s s' r k).
  - pose proof (ImporterRollback.load_plugin_module_restores_sys_path
                  spec_ok exec_module plugin_path san stem s) as Hp.
    by rewrite Hload in Hp.
Qed.

End LoadUnload.

Definition sn0 : gmap string string := {[ "my plugin" := "my_plugin" ]}.
Definition sys0 : sys_state := mkSys {[ "os" := MOther 1 ]} ["/usr/lib/python3"].

(** Plugin code that imports a submodule of its own package. *)
Definition exec_with_sub (s : sys_state) : sys_state * bool :=
  (mkSys (<[ "ncatbot_plugin.my_plugin.util" := MOther 7 ]> (sys_modules s)) (sys_path s), true).

Lemma load_then_unload_restores_witness :
  exists s' r,
    load_plugin_module true exec_with_sub "/plugins/my plugin" "my_plugin" "main" sys0 = (s', r) /\
    fst (unload_plugin_module sn0 "my plugin" (sys_modules s')) = sys_modules sys0 /\
    sys_path s' = sys_path sys0.
Proof.
  do 2 eexists. split; [vm_compute; reflexivity|].
  eapply (load_then_unload_restores true exec_with_sub sn0 "my plugin" "my_plugin"
           "/plugins/my plugin" "main" sys0).
  - reflexivity.
  - discriminate.
  - intros k Hk. simpl. destruct (decide (k = "os")) as [->|Hne].
    + vm_compute in Hk. discriminate.
    + by rewrite lookup_singleton_ne.
  - intros s3 s4 ok [= <- _] k Hk. simpl.
    destruct (decide (k = "ncatbot_plugin.my_plugin.util")) as [->|Hne].
    + vm_compute in Hk. discriminate.
    + by rewrite lookup_insert_ne.
  - vm_compute. reflexivity.
Defined.

Lemma ensure_sanitized_wellformed_witness :
  names_inv (mkNames ∅ ∅) /\
  snd (ensure_sanitized [50%N; 32%N; 98%N] (mkNames ∅ ∅)) = "_2_b"%string /\
  all_name_chars (snd (ensure_sanitized [50%N; 32%N; 98%N] (mkNames ∅ ∅))) = true /\
  first_ok (snd (ensure_sanitized [50%N; 32%N; 98%N] (mkNames ∅ ∅))) = true.
Proof.
  split; [exact names_inv_empty|]. split; [vm_compute; reflexivity|].
  exact (ensure_sanitized_wellformed [50%N; 32%N; 98%N] (mkNames ∅ ∅) names_inv_empty).
Defined.

(** Two plugins whose names sanitize alike: ["a b"] then ["a-b"]. *)
Definition names1 : names := fst (ensure_sanitized [97%N; 32%N; 98%N] (mkNames ∅ ∅)).

Lemma ensure_sanitized_fresh_memo_witness :
  exists st',
    ensure_sanitized [97%N; 45%N; 98%N] names1 = (st', "a_b_1"%string) /\
    names_inv names1 /\
    names_inv st' /\ sanitized_names st' !! [97%N; 45%N; 98%N] = Some "a_b_1"%string /\
    (sanitized_names names1 !! [97%N; 45%N; 98%N] = None ->
       "a_b_1"%string ∉ used_sanitized names1) /\
    (forall n s0, sanitized_names names1 !! n = Some s0 ->
       sanitized_names st' !! n = Some s0) /\
    ensure_sanitized [97%N; 45%N; 98%N] st' = (st', "a_b_1"%string).
Proof.
  assert (H1 : names_inv names1).
  { unfold names1. destruct (ensure_sanitized [97%N; 32%N; 98%N] (mkNames ∅ ∅)) as [st s] eqn:E.
    exact (proj1 (ensure_sanitized_fresh_memo _ _ _ _ names_inv_empty E)). }
  eexists. split; [vm_compute; reflexivity|]. split; [exact H1|].
  apply (ensure_sanitized_fresh_memo [97%N; 45%N; 98%N] names1); [exact H1|].
  vm_compute. reflexivity.
Defined.

End ImporterNames.

(* ------------------------------------------------------------------ *)
(** ** File watcher: what a scan leaves in the cache, and the debounce *)
(* ------------------------------------------------------------------ *)

Module FileWatcherScan.
Import FileWatcher FileWatcherFacts.

(** The fields a scan never writes. *)
Definition ctl (st : fw) : Z * bool * bool * Z * list path :=
  (last_process_time st, paused st, has_callback st, debounce_delay st, watch_dirs st).

Definition site_file (p : path) : bool := contains "site-packages" (path_str p).

(** The cache update of one file of the [rglob] loop. *)
Definition cache_one (c : gmap path Z) (f : path * Z) : gmap path Z :=
  if site_file f.1 then c else <[f.1 := f.2]> c.

Lemma on_file_changed_fields debug fp pd st :
  file_cache (on_file_changed debug fp pd st) = file_cache st /\
  first_scan_done (on_file_changed debug fp pd st) = first_scan_done st /\
  ctl (on_file_changed debug fp pd st) = ctl st.
Proof.
  unfold on_file_changed. destruct debug; simpl; [|done].
  by destruct (relpath_parts fp pd) as [|x [|y r]].
Qed.

Lemma scan_one_fields debug d st f :
  file_cache (scan_one debug d st f) = cache_one (file_cache st) f /\
  first_scan_done (scan_one debug d st f) = first_scan_done st /\
  ctl (scan_one debug d st f) = ctl st.
Proof.
  destruct f as [fp mt]. unfold scan_one, cache_one, site_file. simpl.
  destruct (contains _ _); [done|].
  destruct (file_cache st !! fp) as [old|] eqn:E.
  - destruct (Z.eqb_spec old mt) as [->|Hne].
    + split; [|done]. by rewrite insert_id.
    + destruct (on_file_changed_fields debug fp d
                  (with_cache (<[fp:=mt]> (file_cache st)) st)) as (-> & -> & ->).
      by repeat split.
  - simpl. destruct (first_scan_done st) eqn:Ef.
    + destruct (on_file_changed_fields debug fp d
                  (with_cache (<[fp:=mt]> (file_cache st)) st)) as (-> & -> & ->).
      repeat split; simpl; by rewrite ?Ef.
    + repeat split; simpl; by rewrite ?Ef.
Qed.

Lemma drop_one_fields debug d st fp :
  file_cache (drop_one debug d st fp) = delete fp (file_cache st) /\
  first_scan_done (drop_one debug d st fp) = first_scan_done st /\
  ctl (drop_one debug d st fp) = ctl st.
Proof.
  unfold drop_one. simpl. destruct (first_scan_done st) eqn:Ef.
  - destruct (on_file_changed_fields debug fp d
                (with_cache (delete fp (file_cache st)) st)) as (-> & -> & ->).
    repeat split; simpl; by rewrite ?Ef.
  - repeat split; simpl; by rewrite ?Ef.
Qed.

Lemma fold_scan_one_fields debug d l st :
  file_cache (fold_left (scan_one debug d) l st) = fold_left cache_one l (file_cache st) /\
  first_scan_done (fold_left (scan_one debug d) l st) = first_scan_done st /\
  ctl (fold_left (scan_one debug d) l st) = ctl st.
Proof.
  revert st. induction l as [|f l IH]; intros st; simpl; [done|].
  destruct (IH (scan_one debug d st f)) as (-> & -> & ->).
  by destruct (scan_one_fields debug d st f) as (-> & -> & ->).
Qed.

Lemma fold_drop_one_fields debug d l st :
  file_cache (fold_left (drop_one debug d) l st)
    = fold_left (fun c k => delete k c) l (file_cache st) /\
  first_scan_done (fold_left (drop_one debug d) l st) = first_scan_done st /\
  ctl (fold_left (drop_one debug d) l st) = ctl st.
Proof.
  revert st. induction l as [|f l IH]; intros st; simpl; [done|].
  destruct (IH (drop_one debug d st f)) as (-> & -> & ->).
  by destruct (drop_one_fields debug d st f) as (-> & -> & ->).
Qed.

(** The cache after [_scan_files]: the [rglob] updates, then the
    deletion of every cached file that no longer exists. *)
Lemma scan_files_fields debug fs d st :
  let c1 := fold_left cache_one (rglob_py fs d) (file_cache st) in
  file_cache (scan_files debug fs d st)
    = fold_left (fun c k => delete k c)
        (List.filter (fun f => negb (file_exists fs f)) (map fst (map_to_list c1))) c1 /\
  first_scan_done (scan_files debug fs d st) = true /\
  ctl (scan_files debug fs d st) = ctl st.
Proof.
  unfold scan_files. cbn zeta.
  destruct (fold_scan_one_fields debug d (rglob_py fs d) st) as (Hc & _ & Hk).
  rewrite <- Hc.
  set (st1 := fold_left (scan_one debug d) (rglob_py fs d) st).
  set (del := List.filter _ _).
  destruct (fold_drop_one_fields debug d del st1) as (Hc2 & _ & Hk2).
  split; [exact Hc2|]. split; [done|].
  transitivity (ctl (fold_left (drop_one debug d) del st1)); [reflexivity|].
  rewrite Hk2. exact Hk.
Qed.

Lemma fold_delete_lookup_path (ks : list path) (m : gmap path Z) k :
  fold_left (fun m k => delete k m) ks m !! k = if bool_decide (k ∈ ks) then None else m !! k.
Proof.
  revert m. induction ks as [|k' ks IH]; intros m; cbn [fold_left].
  - case_bool_decide; [set_solver|done].
  - rewrite IH. destruct (decide (k = k')) as [->|Hne].
    + rewrite lookup_delete_eq. repeat case_bool_decide; try set_solver; done.
    + rewrite lookup_delete_ne by done. repeat case_bool_decide; try set_solver; done.
Qed.

Lemma fold_cache_one_other l c p :
  p ∉ map fst l -> fold_left cache_one l c !! p = c !! p.
Proof.
  revert c. induction l as [|[q t] l IH]; intros c Hp; simpl; [done|].
  rewrite IH by set_solver. unfold cache_one. simpl.
  destruct (site_file q); [done|]. rewrite lookup_insert_ne; [done|]. set_solver.
Qed.

Lemma fold_cache_one_in l c p t :
  NoDup (map fst l) -> In (p, t) l -> site_file p = false ->
  fold_left cache_one l c !! p = Some t.
Proof.
  revert c. induction l as [|[q u] l IH]; intros c Hnd Hin Hs; [done|].
  simpl in Hnd. apply NoDup_cons in Hnd as [Hq Hnd]. simpl.
  destruct Hin as [E|Hin].
  - injection E as <- <-. rewrite fold_cache_one_other by done.
    unfold cache_one. simpl. rewrite Hs. apply lookup_insert_eq.
  - by apply IH.
Qed.

Lemma NoDup_map_fst_filter {A B} (P : A * B -> bool) (l : list (A * B)) :
  NoDup (map fst l) -> NoDup (map fst (List.filter P l)).
Proof.
  induction l as [|x l IH]; intros Hnd; simpl; [constructor|].
  simpl in Hnd. apply NoDup_cons in Hnd as [Hx Hnd].
  destruct (P x); simpl; [|by apply IH].
  apply NoDup_cons_2; [|by apply IH].
  intros Hin. apply Hx. apply list_elem_of_In in Hin. apply list_elem_of_In.
  apply in_map_iff in Hin as (y & Ey & Hy). apply filter_In in Hy as [Hy _].
  apply in_map_iff. by exists y.
Qed.

Lemma file_exists_in fs p t : In (p, t) (fs_files fs) -> file_exists fs p = true.
Proof.
  intros H. unfold file_exists. apply existsb_exists. exists (p, t).
  split; [done|]. unfold path_eqb. by apply bool_decide_true.
Qed.

Lemma scan_files_coherent debug fs d st :
  NoDup (map fst (fs_files fs)) ->
  (forall p t, In (p, t) (rglob_py fs d) -> site_file p = false ->
     file_cache (scan_files debug fs d st) !! p = Some t) /\
  (forall p t, file_cache (scan_files debug fs d st) !! p = Some t ->
     file_exists fs p = true).
Proof.
  intros Hnd. destruct (scan_files_fields debug fs d st) as (Hc & _ & _).
  cbn zeta in Hc. rewrite Hc.
  set (c1 := fold_left cache_one (rglob_py fs d) (file_cache st)).
  split.
  - intros p t Hin Hs. rewrite fold_delete_lookup_path.
    assert (Hex : file_exists fs p = true).
    { unfold rglob_py in Hin. apply filter_In in Hin as [Hin _].
      by apply (file_exists_in fs p t). }
    rewrite bool_decide_false.
    + apply fold_cache_one_in; [|done|done]. by apply NoDup_map_fst_filter.
    + intros Hd. apply list_elem_of_In, filter_In in Hd as [_ Hd].
      by rewrite Hex in Hd.
  - intros p t. rewrite fold_delete_lookup_path. case_bool_decide as Hd; [done|].
    intros Hp. destruct (file_exists fs p) eqn:Hex; [done|].
    exfalso. apply Hd. apply list_elem_of_In, filter_In. split.
    + apply in_map_iff. exists (p, t). split; [done|].
      by apply list_elem_of_In, elem_of_map_to_list.
    + by rewrite Hex.
Qed.

(** After [_scan_files], every [.py] file under the directory outside
    [site-packages] is cached with its current modification time, and no
    cached file is one that no longer exists. *)
Theorem scan_files_cache_matches_fs debug fs d st :
  NoDup (map fst (fs_files fs)) ->
  (forall p t, In (p, t) (rglob_py fs d) -> site_file p = false ->
     file_cache (scan_files debug fs d st) !! p = Some t) /\
  (forall p t, file_cache (scan_files debug fs d st) !! p = Some t ->
     file_exists fs p = true).
Proof. apply scan_files_coherent. Qed.

Lemma list_filter_none {A} (f : A -> bool) l :
  (forall x, In x l -> f x = false) -> List.filter f l = [].
Proof.
  induction l as [|x l IH]; intros H; simpl; [done|].
  rewrite (H x (or_introl eq_refl)). apply IH. intros y Hy. apply H. by right.
Qed.

Lemma fold_scan_one_cached debug d l st :
  (forall p t, In (p, t) l -> site_file p = false -> file_cache st !! p = Some t) ->
  fold_left (scan_one debug d) l st = st.
Proof.
  induction l as [|[p t] l IH]; intros H; cbn [fold_left]; [done|].
  assert (E : scan_one debug d st (p, t) = st).
  { unfold scan_one. destruct (contains _ _) eqn:Hs; [done|].
    rewrite (H p t (or_introl eq_refl) Hs). by rewrite Z.eqb_refl. }
  rewrite E. apply IH. intros q u Hq. apply H. by right.
Qed.

(** Scanning a directory again over an unchanged file system changes
    nothing: no cache entry, no pending directory, no flag. *)
Theorem scan_files_rescan_noop debug fs d st :
  NoDup (map fst (fs_files fs)) ->
  scan_files debug fs d (scan_files debug fs d st) = scan_files debug fs d st.
Proof.
  intros Hnd. destruct (scan_files_coherent debug fs d st Hnd) as [Hin Hex].
  destruct (scan_files_fields debug fs d st) as (_ & Hfirst & _).
  set (st' := scan_files debug fs d st) in *.
  unfold scan_files at 1.
  rewrite (fold_scan_one_cached debug d (rglob_py fs d) st') by done.
  assert (Hdel : List.filter (fun f => negb (file_exists fs f))
                   (map fst (map_to_list (file_cache st'))) = []).
  { apply list_filter_none. intros p Hp. apply in_map_iff in Hp as ([q t] & <- & Hq).
    apply list_elem_of_In, elem_of_map_to_list in Hq. simpl.
    by rewrite (Hex q t Hq). }
  rewrite Hdel. simpl. destruct st'. simpl in Hfirst. by subst.
Qed.

Lemma fold_scan_one_fresh debug d l st :
  first_scan_done st = false -> NoDup (map fst l) ->
  (forall q, q ∈ map fst l -> file_cache st !! q = None) ->
  pending_dirs (fold_left (scan_one debug d) l st) = pending_dirs st.
Proof.
  revert st. induction l as [|[p t] l IH]; intros st Hf Hnd Hnone; cbn [fold_left]; [done|].
  simpl in Hnd. apply NoDup_cons in Hnd as [Hp Hnd].
  assert (E : scan_one debug d st (p, t) =
              if site_file p then st else with_cache (<[p:=t]> (file_cache st)) st).
  { unfold scan_one, site_file. destruct (contains _ _); [done|].
    rewrite (Hnone p) by set_solver. simpl. by rewrite Hf. }
  rewrite E. destruct (site_file p).
  - apply IH; [done|done|]. intros q Hq. apply Hnone. set_solver.
  - rewrite IH; [done|done|done|]. intros q Hq. simpl.
    rewrite lookup_insert_ne by set_solver. apply Hnone. set_solver.
Qed.

Lemma fold_drop_one_fresh debug d l st :
  first_scan_done st = false ->
  pending_dirs (fold_left (drop_one debug d) l st) = pending_dirs st.
Proof.
  revert st. induction l as [|fp l IH]; intros st Hf; cbn [fold_left]; [done|].
  unfold drop_one at 2. simpl. rewrite Hf. by rewrite IH.
Qed.

(** The first scan of a fresh watcher, empty cache and
    [_first_scan_done] unset, queues no plugin directory, and sets
    [_first_scan_done]. *)
Theorem first_scan_queues_nothing debug fs d st :
  NoDup (map fst (fs_files fs)) -> file_cache st = ∅ -> first_scan_done st = false ->
  pending_dirs (scan_files debug fs d st) = pending_dirs st /\
  first_scan_done (scan_files debug fs d st) = true.
Proof.
  intros Hnd Hc Hf. split; [|apply (scan_files_fields debug fs d st)].
  unfold scan_files. simpl.
  rewrite fold_drop_one_fresh.
  - apply fold_scan_one_fresh; [done| by apply NoDup_map_fst_filter |].
    intros q _. rewrite Hc. apply lookup_empty.
  - by rewrite (proj1 (proj2 (fold_scan_one_fields debug d (rglob_py fs d) st))).
Qed.

Lemma scan_all_ctl debug fs st : ctl (scan_all debug fs st) = ctl st.
Proof.
  unfold scan_all. set (K := ctl st).
  apply (fold_left_invariant _ (fun st' => ctl st' = K)); [|done].
  intros st' d H. destruct (dir_exists fs d); [|done].
  by rewrite (proj2 (proj2 (scan_files_fields debug fs d st'))).
Qed.

(** What happens to the watcher after a given point: iterations of
    [_watch_loop] at given times, over given file systems, and calls of
    [pause] and [resume] from other threads. *)
Inductive watch_event :=
| Iter (debug : bool) (fs : fs_snapshot) (now : Z)
| PauseCall
| ResumeCall.

(** The directories handed to the reload callback over a run of events,
    in order, and the final state. *)
Fixpoint run_events (evs : list watch_event) (st : fw) : list string * fw :=
  match evs with
  | [] => ([], st)
  | ev :: rest =>
      let '(out, st') :=
        match ev with
        | Iter debug fs now => iteration debug fs now st
        | PauseCall => ([], pause st)
        | ResumeCall => ([], resume st)
        end in
      let '(out', st'') := run_events rest st' in
      (out ++ out', st'')
  end.

Lemma quiet_window t dd evs st :
  last_process_time st = t -> debounce_delay st = dd ->
  (forall debug fs now, In (Iter debug fs now) evs -> now - t < dd) ->
  fst (run_events evs st) = [].
Proof.
  revert st. induction evs as [|ev evs IH]; intros st Hl Hd Hin; [done|].
  assert (Hin' : forall debug fs now, In (Iter debug fs now) evs -> now - t < dd)
    by (intros; eapply Hin; by right).
  destruct ev as [debug fs now| |]; cbn [run_events].
  - assert (Hnow : now - t < dd) by (eapply Hin; by left).
    pose proof (scan_all_ctl debug fs st) as Hk. unfold ctl in Hk.
    injection Hk as Hl1 _ _ Hd1 _.
    assert (E : iteration debug fs now st = ([], scan_all debug fs st)).
    { unfold iteration, process_pending.
      destruct (paused (scan_all debug fs st)); [done|]. case_bool_decide; [done|].
      rewrite Hl1, Hd1, Hl, Hd. destruct (Z.ltb_spec (now - t) dd); [done|lia]. }
    rewrite E.
    destruct (run_events evs (scan_all debug fs st)) as [out' st''] eqn:Er.
    simpl. change out' with (fst (out', st'')). rewrite <- Er.
    apply IH; [by rewrite Hl1|by rewrite Hd1|done].
  - destruct (run_events evs (pause st)) as [out' st''] eqn:Er.
    simpl. change out' with (fst (out', st'')). rewrite <- Er.
    by apply IH.
  - destruct (run_events evs (resume st)) as [out' st''] eqn:Er.
    simpl. change out' with (fst (out', st'')). rewrite <- Er.
    by apply IH.
Qed.

(** Debounce: once an iteration of the watch loop at time [t] has handed
    directories to the reload callback, no later iteration at a time less
    than [debounce_delay] after [t] hands over anything, whatever the
    scans find and whatever [pause] and [resume] calls come in between. *)
Theorem debounce_after_dispatch debug fs t st evs :
  fst (iteration debug fs t st) <> [] ->
  (forall debug' fs' t', In (Iter debug' fs' t') evs -> t' - t < debounce_delay st) ->
  fst (run_events evs (snd (iteration debug fs t st))) = [].
Proof.
  intros Hne Hlt. unfold iteration in Hne |- *.
  pose proof (scan_all_ctl debug fs st) as Hk. unfold ctl in Hk.
  injection Hk as _ _ _ Hd _.
  set (s1 := scan_all debug fs st) in *.
  assert (E : snd (process_pending t s1) = with_last t (with_pending ∅ s1)).
  { revert Hne. unfold process_pending.
    destruct (paused s1); [done|]. case_bool_decide; [done|].
    destruct (t - last_process_time s1 <? debounce_delay s1); [done|].
    by destruct (has_callback s1). }
  rewrite E. apply (quiet_window t (debounce_delay st)); [done| |done].
  simpl. exact Hd.
Qed.

(** A file system with a plugin file, a [site-packages] file and a
    stale cache entry. *)
Definition fs1 : fs_snapshot :=
  mkFs [(["plugins"; "demo"; "main.py"], 7);
        (["plugins"; "demo"; "site-packages"; "x.py"], 3);
        (["plugins"; "demo"; "README"], 2)]
       [["plugins"]; ["plugins"; "demo"]].

Definition fw1 : fw :=
  mkFw {[ ["plugins"; "old"; "gone.py"] := 1 ]} true ∅ 0 false true 10 [["plugins"]].

Lemma fs1_nodup : NoDup (map fst (fs_files fs1)).
Proof.
  vm_compute. apply NoDup_cons_2; [|apply NoDup_cons_2; [|apply NoDup_singleton]].
  - rewrite list_elem_of_In. simpl. intros [E|[E|[]]]; discriminate.
  - rewrite list_elem_of_singleton. discriminate.
Qed.

Lemma scan_files_cache_matches_fs_witness :
  NoDup (map fst (fs_files fs1)) /\
  file_cache (scan_files true fs1 ["plugins"] fw1) !! ["plugins"; "demo"; "main.py"] = Some 7 /\
  file_cache (scan_files true fs1 ["plugins"] fw1) !! ["plugins"; "old"; "gone.py"] = None.
Proof.
  split; [exact fs1_nodup|]. split.
  - apply (proj1 (scan_files_cache_matches_fs true fs1 ["plugins"] fw1 fs1_nodup)).
    + vm_compute. left. reflexivity.
    + reflexivity.
  - vm_compute. reflexivity.
Defined.

Lemma scan_files_rescan_noop_witness :
  NoDup (map fst (fs_files fs1)) /\
  scan_files true fs1 ["plugins"] (scan_files true fs1 ["plugins"] fw1)
    = scan_files true fs1 ["plugins"] fw1.
Proof.
  split; [exact fs1_nodup|].
  exact (scan_files_rescan_noop true fs1 ["plugins"] fw1 fs1_nodup).
Defined.

Definition fresh_fw : fw := mkFw ∅ false ∅ 0 false true 10 [["plugins"]].

Lemma first_scan_queues_nothing_witness :
  NoDup (map fst (fs_files fs1)) /\ file_cache fresh_fw = ∅ /\
  first_scan_done fresh_fw = false /\
  pending_dirs (scan_files true fs1 ["plugins"] fresh_fw) = pending_dirs fresh_fw /\
  first_scan_done (scan_files true fs1 ["plugins"] fresh_fw) = true.
Proof.
  split; [exact fs1_nodup|]. split; [reflexivity|]. split; [reflexivity|].
  exact (first_scan_queues_nothing true fs1 ["plugins"] fresh_fw fs1_nodup eq_refl eq_refl).
Defined.

Definition ready_fw : fw := mkFw ∅ true {[ "demo" ]} 0 false true 10 [].

Lemma debounce_after_dispatch_witness :
  fst (iteration true fs1 20 ready_fw) = ["demo"%string] /\
  fst (run_events [Iter true fs1 25; PauseCall; ResumeCall; Iter true fs1 29]
         (snd (iteration true fs1 20 ready_fw))) = [].
Proof.
  assert (H1 : fst (iteration true fs1 20 ready_fw) = ["demo"%string]) by (vm_compute; reflexivity).
  split; [exact H1|].
  apply (debounce_after_dispatch true fs1 20 ready_fw).
  - rewrite H1. discriminate.
  - intros d f t' [E|[E|[E|[E|[]]]]].
    + injection E as _ _ <-. reflexivity.
    + discriminate E.
    + discriminate E.
    + injection E as _ _ <-. reflexivity.
Defined.

End FileWatcherScan.

Module PluginConfigMore.
Import PluginConfig PluginConfigFacts.

Definition cfg_lookup {A} (c : gmap string (gmap string A)) (p n : string) : option A :=
  default ∅ (c !! p) !! n.

Lemma get_cfg_lookup s p n d : get s p n d = default d (cfg_lookup (configs s) p n).
Proof. reflexivity. Qed.

Lemma ensure_default {A} p (c : gmap string (gmap string A)) :
  default ∅ (ensure_plugin p c !! p) = default ∅ (c !! p).
Proof.
  unfold ensure_plugin. destruct (c !! p) eqn:E; [by rewrite E|].
  by rewrite lookup_insert_eq.
Qed.

Lemma ensure_lookup {A} p (c : gmap string (gmap string A)) p' n :
  cfg_lookup (ensure_plugin p c) p' n = cfg_lookup c p' n.
Proof.
  unfold cfg_lookup. destruct (decide (p' = p)) as [->|Hne].
  - by rewrite ensure_default.
  - unfold ensure_plugin. destruct (c !! p); [done|].
    by rewrite lookup_insert_ne by congruence.
Qed.

Lemma insert_ensure {A} p (c : gmap string (gmap string A)) x :
  <[p := x]> (ensure_plugin p c) = <[p := x]> c.
Proof. unfold ensure_plugin. destruct (c !! p); [done|]. by rewrite insert_insert_eq. Qed.

Lemma store_lookup {A} (c : gmap string (gmap string A)) p n v p' n' :
  cfg_lookup (<[p := <[n := v]> (default ∅ (c !! p))]> c) p' n' =
  if decide (p' = p /\ n' = n) then Some v else cfg_lookup c p' n'.
Proof.
  unfold cfg_lookup. destruct (decide (p' = p)) as [->|Hp].
  - rewrite lookup_insert_eq. simpl. destruct (decide (n' = n)) as [->|Hn].
    + rewrite lookup_insert_eq. by rewrite decide_True.
    + rewrite lookup_insert_ne by congruence. rewrite decide_False by tauto. done.
  - rewrite lookup_insert_ne by congruence. rewrite decide_False by tauto. done.
Qed.

Lemma set_configs1 (s : service) p :
  match configs s !! p with
  | Some _ => configs s
  | None => <[p := ∅]> (configs s)
  end = ensure_plugin p (configs s).
Proof. reflexivity. Qed.

Lemma store_ensure_lookup {A} (c : gmap string (gmap string A)) p n v p' n' :
  cfg_lookup (<[p := <[n := v]> (default ∅ (ensure_plugin p c !! p))]> (ensure_plugin p c)) p' n' =
  if decide (p' = p /\ n' = n) then Some v else cfg_lookup c p' n'.
Proof. rewrite ensure_default, insert_ensure. apply store_lookup. Qed.

Section SetFacts.
Variable parse_value : value_type -> pyval -> option pyval.
Variable on_change_raises : nat -> pyval -> pyval -> bool.

(** [set] that returns [(old, new)]: [old] was the value read before
    ([None] when missing), [get] now reads [new] for that key, every other
    plugin and key reads as before, the registered items are untouched and
    the service is dirty. *)
Theorem set_get_roundtrip (s s' : service) plugin_name name value eff o n :
  set parse_value on_change_raises plugin_name name value s = (eff, inl (s', (o, n))) ->
  o = get s plugin_name name PNone /\
  (forall d, get s' plugin_name name d = n) /\
  (forall p' n' d, (p', n') <> (plugin_name, name) -> get s' p' n' d = get s p' n' d) /\
  config_items s' = config_items s /\ dirty s' = true.
Proof.
  unfold set. rewrite set_old_value.
  destruct (default ∅ (config_items s !! plugin_name) !! name) as [it|].
  - destruct (parse_value (ci_value_type it) value) as [v|]; [|discriminate].
    intros H. injection H as _ <- <- <-.
    split; [done|]. rewrite set_configs1.
    split; [|split; [|split]]; [intros d| intros p' n' d Hne|done|done];
      rewrite !get_cfg_lookup; cbn [configs]; rewrite store_ensure_lookup.
    + by rewrite decide_True.
    + rewrite decide_False by (intros [-> ->]; by apply Hne). done.
  - intros H. injection H as _ <- <- <-.
    split; [done|]. rewrite set_configs1.
    split; [|split; [|split]]; [intros d| intros p' n' d Hne|done|done];
      rewrite !get_cfg_lookup; cbn [configs]; rewrite store_ensure_lookup.
    + by rewrite decide_True.
    + rewrite decide_False by (intros [-> ->]; by apply Hne). done.
Qed.

(** [set] of a key no item is registered for never fails and calls no
    callback: it stores [value] exactly as given and returns
    [(old, value)]. *)
Theorem set_unregistered_stores_raw (s : service) plugin_name name value :
  default ∅ (config_items s !! plugin_name) !! name = None ->
  exists s', set parse_value on_change_raises plugin_name name value s =
             ([], inl (s', (get s plugin_name name PNone, value))) /\
             forall d, get s' plugin_name name d = value.
Proof.
  intros Hn. unfold set. rewrite Hn, set_old_value. eexists. split; [reflexivity|].
  intros d. rewrite get_cfg_lookup. cbn [configs]. rewrite set_configs1, store_ensure_lookup.
  by rewrite decide_True.
Qed.

(** When the registered item's [parse_value] raises, [set] fails with no
    callback called: every value reads as before, the dirty flag and the
    registered items are unchanged. *)
Theorem set_parse_failure_no_change (s : service) plugin_name name value it :
  default ∅ (config_items s !! plugin_name) !! name = Some it ->
  parse_value (ci_value_type it) value = None ->
  exists s', set parse_value on_change_raises plugin_name name value s =
             ([], inr (s', ParseValueError)) /\
             (forall p' n' d, get s' p' n' d = get s p' n' d) /\
             dirty s' = dirty s /\ config_items s' = config_items s.
Proof.
  intros Hit Hp. unfold set. rewrite Hit, Hp. eexists. split; [reflexivity|].
  split; [|done]. intros p' n' d. rewrite !get_cfg_lookup. cbn [configs].
  rewrite set_configs1. by rewrite ensure_lookup.
Qed.

End SetFacts.

Section RegisterFacts.
Variable coerce : value_type -> pyval -> option pyval.

(** Registering a name the plugin already has an item for raises
    [ValueError]: values, registered items and the dirty flag are as
    before. *)
Theorem register_config_duplicate (s : service) plugin_name name default_value vt on_change it :
  cfg_lookup (config_items s) plugin_name name = Some it ->
  exists s', register_config coerce plugin_name name default_value vt on_change s =
             inr (s', AlreadyRegistered) /\
             configs s' = configs s /\ dirty s' = dirty s /\
             (forall p' n', cfg_lookup (config_items s') p' n' = cfg_lookup (config_items s) p' n').
Proof.
  unfold cfg_lookup. intros Hit. unfold register_config. rewrite ensure_default, Hit.
  eexists. split; [reflexivity|]. split; [done|]. split; [done|].
  intros p' n'. cbn [config_items]. apply ensure_lookup.
Qed.

Lemma register_items (s : service) plugin_name name vt on_change p' n' :
  cfg_lookup (<[plugin_name := <[name := mkItem vt on_change]>
                 (default ∅ (ensure_plugin plugin_name (config_items s) !! plugin_name))]>
              (ensure_plugin plugin_name (config_items s))) p' n' =
  if decide (p' = plugin_name /\ n' = name) then Some (mkItem vt on_change)
  else cfg_lookup (config_items s) p' n'.
Proof. apply store_ensure_lookup. Qed.

(** Registering a new item for a key that already has a value keeps that
    value (the default is not even converted) and leaves the dirty flag
    alone; the item is registered and no other item changes. *)
Theorem register_config_keeps_existing (s : service) plugin_name name default_value vt on_change v0 :
  cfg_lookup (config_items s) plugin_name name = None ->
  cfg_lookup (configs s) plugin_name name = Some v0 ->
  exists s', register_config coerce plugin_name name default_value vt on_change s = inl s' /\
             (forall p' n' d, get s' p' n' d = get s p' n' d) /\
             dirty s' = dirty s /\
             (forall p' n', cfg_lookup (config_items s') p' n' =
                if decide (p' = plugin_name /\ n' = name) then Some (mkItem vt on_change)
                else cfg_lookup (config_items s) p' n').
Proof.
  unfold cfg_lookup at 1 2. intros Hn Hv. unfold register_config.
  rewrite ensure_default, Hn. rewrite ensure_default, Hv.
  eexists. split; [reflexivity|]. split; [|split; [done|]].
  - intros p' n' d. rewrite !get_cfg_lookup. cbn [configs]. by rewrite ensure_lookup.
  - intros p' n'. cbn [config_items]. rewrite <- (ensure_default plugin_name (config_items s)).
    apply register_items.
Qed.

(** Registering a new item for a key with no value stores the default
    (converted to the item's type) and marks the service dirty; all other
    values read as before. *)
Theorem register_config_stores_default (s : service) plugin_name name default_value vt on_change v :
  cfg_lookup (config_items s) plugin_name name = None ->
  cfg_lookup (configs s) plugin_name name = None ->
  default_to_store coerce vt default_value = Some v ->
  exists s', register_config coerce plugin_name name default_value vt on_change s = inl s' /\
             (forall d, get s' plugin_name name d = v) /\
             (forall p' n' d, (p', n') <> (plugin_name, name) -> get s' p' n' d = get s p' n' d) /\
             dirty s' = true /\
             cfg_lookup (config_items s') plugin_name name = Some (mkItem vt on_change).
Proof.
  unfold cfg_lookup at 1 2. intros Hn Hv Hd. unfold register_config.
  rewrite ensure_default, Hn. rewrite ensure_default, Hv, Hd.
  eexists. split; [reflexivity|].
  split; [|split; [|split; [done|]]].
  - intros d. rewrite get_cfg_lookup. cbn [configs].
    rewrite <- (ensure_default plugin_name (configs s)), store_ensure_lookup.
    by rewrite decide_True.
  - intros p' n' d Hne. rewrite !get_cfg_lookup. cbn [configs].
    rewrite <- (ensure_default plugin_name (configs s)), store_ensure_lookup.
    rewrite decide_False by (intros [-> ->]; by apply Hne). done.
  - cbn [config_items]. rewrite <- (ensure_default plugin_name (config_items s)).
    rewrite register_items. by rewrite decide_True.
Qed.

(** When the conversion of the default raises, [register_config] fails
    but the item stays registered with no value stored: registering the
    same name again raises [ValueError] for a duplicate. *)
Theorem register_config_coerce_failure (s : service) plugin_name name default_value vt on_change
    default_value' vt' on_change' :
  cfg_lookup (config_items s) plugin_name name = None ->
  cfg_lookup (configs s) plugin_name name = None ->
  default_to_store coerce vt default_value = None ->
  exists s', register_config coerce plugin_name name default_value vt on_change s =
               inr (s', CoerceError) /\
             (forall p' n' d, get s' p' n' d = get s p' n' d) /\
             dirty s' = dirty s /\
             cfg_lookup (config_items s') plugin_name name = Some (mkItem vt on_change) /\
             exists s'', register_config coerce plugin_name name default_value' vt' on_change' s' =
                           inr (s'', AlreadyRegistered).
Proof.
  unfold cfg_lookup at 1 2. intros Hn Hv Hd. unfold register_config at 1.
  rewrite ensure_default, Hn. rewrite ensure_default, Hv, Hd.
  eexists. split; [reflexivity|].
  assert (Hit : cfg_lookup (config_items
     (mkSvc (ensure_plugin plugin_name (configs s))
        (<[plugin_name := <[name := mkItem vt on_change]>
            (default ∅ (config_items s !! plugin_name))]>
           (ensure_plugin plugin_name (config_items s))) (dirty s)))
     plugin_name name = Some (mkItem vt on_change)).
  { cbn [config_items]. rewrite <- (ensure_default plugin_name (config_items s)).
    rewrite register_items. by rewrite decide_True. }
  split; [|split; [done|split; [exact Hit|]]].
  - intros p' n' d. rewrite !get_cfg_lookup. cbn [configs]. by rewrite ensure_lookup.
  - unfold register_config. unfold cfg_lookup in Hit. rewrite ensure_default, Hit.
    eexists. reflexivity.
Qed.

End RegisterFacts.

Lemma migrate_fold (legacy : list (string * pyval)) (pc : gmap string pyval) :
  fold_left (fun pc '(key, value) =>
               match pc !! key with
               | Some _ => pc
               | None => <[key := value]> pc
               end) legacy pc = pc ∪ list_to_map legacy.
Proof.
  revert pc. induction legacy as [|[k v] l IH]; intros pc; cbn [fold_left].
  - by rewrite list_to_map_nil, (right_id_L ∅ (∪)).
  - rewrite IH, list_to_map_cons. apply map_eq. intros i.
    rewrite !lookup_union. destruct (pc !! k) as [x|] eqn:Ek.
    + destruct (decide (i = k)) as [->|Hne].
      * rewrite Ek, lookup_insert_eq. by destruct (list_to_map l !! k).
      * by rewrite lookup_insert_ne by congruence.
    + destruct (decide (i = k)) as [->|Hne].
      * rewrite lookup_insert_eq, Ek, lookup_insert_eq. by destruct (list_to_map l !! k).
      * by rewrite !lookup_insert_ne by congruence.
Qed.

(** [migrate_from_legacy] never overwrites a value: the plugin's
    configuration becomes its old one extended by the legacy keys it did not
    have (the first occurrence of a key wins); other plugins and the
    registered items are untouched, and the service is marked dirty. *)
Theorem migrate_from_legacy_no_overwrite (s : service) plugin_name legacy_config :
  let s' := migrate_from_legacy plugin_name legacy_config s in
  default ∅ (configs s' !! plugin_name) =
    default ∅ (configs s !! plugin_name) ∪ list_to_map legacy_config /\
  (forall p', p' <> plugin_name -> configs s' !! p' = configs s !! p') /\
  config_items s' = config_items s /\ dirty s' = true.
Proof.
  cbv zeta. unfold migrate_from_legacy. cbn [configs config_items dirty].
  rewrite migrate_fold, ensure_default. split; [|split; [|done]].
  - by rewrite lookup_insert_eq.
  - intros p' Hne. rewrite lookup_insert_ne by congruence.
    unfold ensure_plugin. destruct (configs s !! plugin_name); [done|].
    by rewrite lookup_insert_ne by congruence.
Qed.

Lemma lower_char_idem c : lower_char (lower_char c) = lower_char c.
Proof.
  destruct c as [[] [] [] [] [] [] [] []]; vm_compute; reflexivity.
Qed.

Lemma py_lower_idem s : py_lower (py_lower s) = py_lower s.
Proof. induction s as [|c r IH]; simpl; [done|]. by rewrite lower_char_idem, IH. Qed.

(** The [bool] branch of [ConfigItem.parse_value] only ever returns a
    [bool], and returns it again when given it back; it rejects [None] and
    every [int] (also [0] and [1]); on strings it ignores case. *)
Theorem parse_value_bool_props (v w : pyval) (z : Z) (t : string) :
  (parse_value_bool v = Some w -> exists b, w = PBool b /\ parse_value_bool w = Some w) /\
  parse_value_bool (PInt z) = None /\ parse_value_bool PNone = None /\
  parse_value_bool (PStr t) = parse_value_bool (PStr (py_lower t)).
Proof.
  split; [|split; [done|split; [done|]]].
  - destruct v as [|b|z'|s]; cbn [parse_value_bool]; try discriminate.
    + intros [= <-]. by exists b.
    + destruct (existsb (String.eqb (py_lower s)) ["true"; "1"; "yes"; "on"]);
        [intros [= <-]; by exists true|].
      destruct (existsb (String.eqb (py_lower s)) ["false"; "0"; "no"; "off"]);
        [intros [= <-]; by exists false|discriminate].
  - simpl. by rewrite py_lower_idem.
Qed.

(** The wrapper is in step with the service when its [_data] is the
    plugin's configuration. *)
Definition in_sync (w : plugin_config) (s : service) : Prop :=
  pc_data w = default ∅ (configs s !! pc_plugin_name w).

Lemma atomic_save_configs saved s : configs (atomic_save saved s) = configs s.
Proof. unfold atomic_save. by destruct (dirty s && saved). Qed.

Lemma dict_update_fold d upd :
  dict_update d upd = fold_left (fun d '(k, v) => <[k := v]> d) upd d.
Proof. reflexivity. Qed.

Section Wrapper.
Variable parse_value : value_type -> pyval -> option pyval.
Variable on_change_raises : nat -> pyval -> pyval -> bool.
Variable saved : bool.

(** A wrapper from [get_plugin_config_wrapper] is in step with the
    service, and [update], [remove] and [bulk_update] keep it in step,
    also when [update] raises. *)
Theorem plugin_config_wrapper_in_sync :
  (forall plugin_name s,
     let '(s', w) := get_plugin_config_wrapper plugin_name s in in_sync w s') /\
  (forall w s key value, in_sync w s ->
     match snd (pc_update parse_value on_change_raises saved w key value s) with
     | inl (s', w', _) => in_sync w' s'
     | inr (s', _) => in_sync w s'
     end) /\
  (forall w s key, in_sync w s ->
     match pc_remove saved w key s with
     | Some (s', w', _) => in_sync w' s'
     | None => True
     end) /\
  (forall w s updates, in_sync w s ->
     let '(s', w') := pc_bulk_update saved w updates s in in_sync w' s').
Proof.
  split; [|split; [|split]].
  - intros p s. unfold get_plugin_config_wrapper, in_sync. reflexivity.
  - intros [p d] s key value Hs. unfold in_sync in *. cbn [pc_plugin_name pc_data] in *.
    unfold pc_update, set_atomic, set. cbn [pc_plugin_name pc_data].
    rewrite set_configs1, ensure_default, <- Hs.
    destruct (default ∅ (config_items s !! p) !! key) as [it|].
    + destruct (parse_value (ci_value_type it) value) as [v|].
      * destruct (ci_on_change it); cbn; rewrite atomic_save_configs; cbn [configs];
          rewrite lookup_insert_eq; try destruct (negb _); try destruct (on_change_raises _ _ _);
          reflexivity.
      * cbn. by rewrite ensure_default.
    + cbn. rewrite atomic_save_configs. cbn [configs]. by rewrite lookup_insert_eq.
  - intros [p d] s key Hs. unfold in_sync in *. cbn [pc_plugin_name pc_data] in *.
    unfold pc_remove. cbn [pc_plugin_name pc_data].
    destruct (d !! key) as [old|] eqn:Ek; [|done]. cbn [pc_plugin_name pc_data].
    unfold delete_config_item. destruct (configs s !! p) as [pc|] eqn:Ep.
    + simpl in Hs. subst d. rewrite Ek. rewrite atomic_save_configs. cbn [configs].
      by rewrite lookup_insert_eq.
    + simpl in Hs. subst d. by rewrite lookup_empty in Ek.
  - intros [p d] s updates Hs. unfold in_sync in *. cbn [pc_plugin_name pc_data] in *.
    unfold pc_bulk_update. destruct updates as [|u us]; [done|].
    cbn [pc_plugin_name pc_data]. unfold set_plugin_config_atomic, set_plugin_config.
    rewrite atomic_save_configs. cbn [configs]. rewrite lookup_insert_eq, ensure_default.
    simpl. by rewrite Hs.
Qed.

End Wrapper.

(** After [delete_plugin_config], every key of the plugin reads its
    default and no item is registered for it, so any of its names can be
    registered again; other plugins keep their values and items. *)
Theorem delete_plugin_config_forgets (s : service) plugin_name :
  let s' := delete_plugin_config plugin_name s in
  (forall n d, get s' plugin_name n d = d) /\
  (forall n, cfg_lookup (config_items s') plugin_name n = None) /\
  (forall p' n d, p' <> plugin_name -> get s' p' n d = get s p' n d) /\
  (forall p' n, p' <> plugin_name ->
     cfg_lookup (config_items s') p' n = cfg_lookup (config_items s) p' n).
Proof.
  cbv zeta. unfold delete_plugin_config.
  destruct (configs s !! plugin_name) eqn:E; cbn [configs config_items dirty];
    unfold get, cfg_lookup; cbn [configs config_items];
    (split; [|split; [|split]]).
  all: try (intros n d; by rewrite lookup_delete_eq).
  all: try (intros n; by rewrite lookup_delete_eq).
  all: try (intros p' n d Hne; by rewrite lookup_delete_ne by congruence).
  all: try (intros p' n Hne; by rewrite lookup_delete_ne by congruence).
  - intros n d. by rewrite E.
  - done.
Qed.

Definition never_raises (cb : nat) (o n : pyval) : bool := false.

Definition parse_int_only (t : value_type) (x : pyval) : option pyval :=
  match x with
  | PInt _ => Some x
  | _ => None
  end.

Definition coerce_id (t : value_type) (x : pyval) : option pyval := Some x.

Definition coerce_fails (t : value_type) (x : pyval) : option pyval := None.

(** A service whose value for [demo.limit] was loaded from the file
    before any item was registered. *)
Definition loaded_service : service :=
  mkSvc {[ "demo" := {[ "limit" := PInt 3 ]} ]} ∅ false.

Lemma set_get_roundtrip_witness :
  exists eff s', set parse_identity never_raises "demo" "limit" (PInt 5) cfg_service =
                   (eff, inl (s', (PInt 3, PInt 5))) /\
                 get s' "demo" "limit" PNone = PInt 5.
Proof.
  eexists _, _. split; [reflexivity|].
  destruct (set_get_roundtrip parse_identity never_raises cfg_service _ "demo" "limit"
              (PInt 5) _ _ _ eq_refl) as (_ & Hget & _).
  apply Hget.
Defined.

Lemma set_unregistered_stores_raw_witness :
  default ∅ (config_items cfg_service !! "demo") !! "other" = None /\
  exists s', set parse_int_only never_raises "demo" "other" (PStr "x") cfg_service =
               ([], inl (s', (PNone, PStr "x"))).
Proof.
  split; [reflexivity|].
  destruct (set_unregistered_stores_raw parse_int_only never_raises cfg_service
              "demo" "other" (PStr "x") eq_refl) as (s' & E & _).
  exists s'. exact E.
Defined.

Lemma set_parse_failure_no_change_witness :
  exists s', set parse_int_only never_raises "demo" "limit" (PStr "abc") cfg_service =
               ([], inr (s', ParseValueError)) /\
             get s' "demo" "limit" PNone = PInt 3.
Proof.
  destruct (set_parse_failure_no_change parse_int_only never_raises cfg_service
              "demo" "limit" (PStr "abc") (mkItem TInt (Some 7%nat)) eq_refl eq_refl)
    as (s' & E & Hget & _).
  exists s'. split; [exact E|]. rewrite Hget. reflexivity.
Defined.

Lemma register_config_duplicate_witness :
  exists s', register_config coerce_id "demo" "limit" (PInt 1) TInt None cfg_service =
               inr (s', AlreadyRegistered).
Proof.
  destruct (register_config_duplicate coerce_id cfg_service "demo" "limit" (PInt 1) TInt None
              (mkItem TInt (Some 7%nat)) eq_refl) as (s' & E & _).
  exists s'. exact E.
Defined.

Lemma register_config_keeps_existing_witness :
  exists s', register_config coerce_fails "demo" "limit" (PStr "oops") TInt None loaded_service =
               inl s' /\ get s' "demo" "limit" PNone = PInt 3.
Proof.
  destruct (register_config_keeps_existing coerce_fails loaded_service "demo" "limit"
              (PStr "oops") TInt None (PInt 3) eq_refl eq_refl) as (s' & E & Hget & _).
  exists s'. split; [exact E|]. rewrite Hget. reflexivity.
Defined.

Lemma register_config_stores_default_witness :
  exists s', register_config coerce_id "demo" "timeout" (PInt 30) TInt None cfg_service =
               inl s' /\ get s' "demo" "timeout" PNone = PInt 30.
Proof.
  destruct (register_config_stores_default coerce_id cfg_service "demo" "timeout"
              (PInt 30) TInt None (PInt 30) eq_refl eq_refl eq_refl) as (s' & E & Hget & _).
  exists s'. split; [exact E|]. apply Hget.
Defined.

Lemma register_config_coerce_failure_witness :
  exists s', register_config coerce_fails "demo" "timeout" (PStr "x") TInt None cfg_service =
               inr (s', CoerceError) /\
             exists s'', register_config coerce_fails "demo" "timeout" (PInt 30) TInt None s' =
                           inr (s'', AlreadyRegistered).
Proof.
  destruct (register_config_coerce_failure coerce_fails cfg_service "demo" "timeout"
              (PStr "x") TInt None (PInt 30) TInt None eq_refl eq_refl eq_refl)
    as (s' & E & _ & _ & _ & Hagain).
  exists s'. split; [exact E|exact Hagain].
Defined.

Lemma plugin_config_wrapper_in_sync_witness :
  let '(s, w) := get_plugin_config_wrapper "demo" cfg_service in
  in_sync w s /\
  match snd (pc_update parse_identity never_raises true w "limit" (PInt 5) s) with
  | inl (s', w', _) => in_sync w' s'
  | inr (s', _) => in_sync w s'
  end.
Proof.
  destruct (plugin_config_wrapper_in_sync parse_identity never_raises true)
    as (Hfresh & Hupd & _).
  pose proof (Hfresh "demo" cfg_service) as H0.
  destruct (get_plugin_config_wrapper "demo" cfg_service) as [s w].
  split; [exact H0|]. apply Hupd. exact H0.
Defined.

End PluginConfigMore.
